(** * Dungeon scene: painting a generated dungeon into tile layers, prop
    placement, collision set-up, the stairs trigger and the per-room
    visibility tracker.

    The scene (dungeon-scene) is embedded shallowly.  The tilemap layer of the
    engine and the room objects of the dungeon generator are libraries the
    scene calls into; the operations it uses are written out here with the
    behaviour the scene relies on (bounds-checked single-cell writes,
    rectangle clipping, row-major traversal, one or two random draws per
    weighted cell).  [Math.random] is a cursor into an arbitrary sequence of
    rational draws, threaded through a small state monad. *)

From Stdlib Require Import ZArith QArith Qround Lia Lqa List.
From stdpp Require Import base tactics option list gmap.

Local Open Scope Z_scope.

(** ** Random source *)

Record Rng := mkRng { draws : nat -> Q; cursor : nat }.

Definition Rand (A : Type) : Type := Rng -> A * Rng.

#[global] Instance rand_ret : MRet Rand := fun A a g => (a, g).

#[global] Instance rand_bind : MBind Rand :=
  fun A B k m g => let (a, g') := m g in k a g'.

(** [Math.random()] *)
Definition Math_random : Rand Q :=
  fun g => (draws g (cursor g), mkRng (draws g) (S (cursor g))).

(** Every draw lies in [0, 1), as [Math.random] promises. *)
Definition rng_ok (g : Rng) : Prop :=
  forall n, (0 <= draws g n)%Q /\ (draws g n < 1)%Q.

(** [Phaser.Math.Between(min, max)]:
    [Math.floor(Math.random() * (max - min + 1) + min)] *)
Definition Between (min max : Z) : Rand Z :=
  r ← Math_random;
  mret (Qfloor (r * inject_Z (max - min + 1) + inject_Z min)).

(** ** Tile index table

    The table itself (tile-mapping) is configuration; only its shape is
    fixed here: what the scene hands to [putTileAt] is a single index, what
    it hands to [weightedRandomize] is a list of [{index, weight}] entries
    whose [index] is one number or a non-empty array of numbers, and what it
    hands to [putTilesAt] is a number, a row or a grid of numbers. *)

Inductive IndexChoice :=
| One (i : Z)
| Among (i : Z) (rest : list Z).

Record WeightedIndex := mkWeighted { index : IndexChoice; weight : Q }.

Inductive TilesArray :=
| Scalar (i : Z)
| Row (r : list Z)
| Grid (g : list (list Z)).

Module Wall.
Record t := mk {
  TOP_LEFT : Z;
  TOP_RIGHT : Z;
  BOTTOM_RIGHT : Z;
  BOTTOM_LEFT : Z;
  TOP : list WeightedIndex;
  LEFT : list WeightedIndex;
  RIGHT : list WeightedIndex;
  BOTTOM : list WeightedIndex
}.
End Wall.

Module Door.
Record t := mk {
  TOP : TilesArray;
  LEFT : TilesArray;
  BOTTOM : TilesArray;
  RIGHT : TilesArray
}.
End Door.

Record TileMapping := mkTiles {
  BLANK : Z;
  WALL : Wall.t;
  FLOOR : list WeightedIndex;
  POT : list WeightedIndex;
  DOOR : Door.t;
  CHEST : Z;
  STAIRS : Z;
  TOWER : TilesArray
}.

(** The indices a choice can resolve to. *)
Definition choiceIndexes (c : IndexChoice) : list Z :=
  match c with
  | One i => [i]
  | Among i rest => i :: rest
  end.

(** All the concrete indices a weighted list offers. *)
Definition alternatives (ws : list WeightedIndex) : list Z :=
  flat_map (fun w => choiceIndexes (index w)) ws.

Definition weightTotal (ws : list WeightedIndex) : Q :=
  fold_left (fun acc w => (acc + weight w)%Q) ws 0%Q.

(** ** Tilemap layer *)

Module Tile.
Record t := mk { index : Z; collides : bool }.
Definition blank : t := mk (-1) false.
End Tile.

(** What a tile-index callback does when it is invoked.  The scene only ever
    registers two closures: the goal handler and the empty function. *)
Inductive TileCallback :=
| ReachedStairs
| NoOp.

Module Layer.
Record t := mk {
  width : Z;
  height : Z;
  data : gmap (Z * Z) Tile.t;
  collideIndexes : list Z;
  callbacks : gmap Z TileCallback
}.

Definition setData (d : gmap (Z * Z) Tile.t) (L : t) : t :=
  mk (width L) (height L) d (collideIndexes L) (callbacks L).

(** [createBlankLayer]: every cell holds a tile of index -1. *)
Definition createBlankLayer (w h : Z) : t := mk w h ∅ [] ∅.

Definition IsInLayerBounds (tx ty : Z) (L : t) : bool :=
  (0 <=? tx) && (tx <? width L) && (0 <=? ty) && (ty <? height L).

(** [layer.data[ty][tx]] inside the bounds. *)
Definition tileAt (tx ty : Z) (L : t) : option Tile.t :=
  if IsInLayerBounds tx ty L
  then Some (default Tile.blank (data L !! (tx, ty)))
  else None.

Definition indexAt (tx ty : Z) (L : t) : option Z :=
  Tile.index <$> tileAt tx ty L.

Definition hasIndex (i : Z) (l : list Z) : bool := bool_decide (i ∈ l).

(** [putTileAt(index, tileX, tileY)]: nothing outside the bounds; inside, the
    index is stored and the collision flag recomputed from
    [collideIndexes] (cleared for index -1). *)
Definition putTileAt (i : Z) (tx ty : Z) (L : t) : t :=
  if IsInLayerBounds tx ty L then
    let c := if i =? -1 then false else hasIndex i (collideIndexes L) in
    setData (<[(tx, ty) := Tile.mk i c]> (data L)) L
  else L.

(** [GetTilesWithin]: the rectangle is clipped to the layer and its cells
    are listed row by row. *)
Definition GetTilesWithin (tileX tileY w h : Z) (L : t) : list (Z * Z) :=
  let w1 := if tileX <? 0 then w + tileX else w in
  let x1 := if tileX <? 0 then 0 else tileX in
  let h1 := if tileY <? 0 then h + tileY else h in
  let y1 := if tileY <? 0 then 0 else tileY in
  let w2 := if width L <? x1 + w1 then Z.max (width L - x1) 0 else w1 in
  let h2 := if height L <? y1 + h1 then Z.max (height L - y1) 0 else h1 in
  ty ← seqZ y1 h2; tx ← seqZ x1 w2; [(tx, ty)].

(** [tile.index = i], leaving the collision flag alone. *)
Definition setIndex (i : Z) (c : Z * Z) (L : t) : t :=
  let old := default Tile.blank (data L !! c) in
  setData (<[c := Tile.mk i (Tile.collides old)]> (data L)) L.

(** [fill(index)] over the whole layer. *)
Definition fill (i : Z) (L : t) : t :=
  let c := hasIndex i (collideIndexes L) in
  fold_left (fun L' p => setData (<[p := Tile.mk i c]> (data L')) L')
            (GetTilesWithin 0 0 (width L) (height L) L) L.

(** The inner loop of [weightedRandomize]: the first entry whose running
    sum reaches [rand]. *)
Fixpoint pickWeighted (rand sum : Q) (ws : list WeightedIndex)
  : option IndexChoice :=
  match ws with
  | [] => None
  | w :: ws' =>
      let sum' := (sum + weight w)%Q in
      if Qle_bool rand sum' then Some (index w)
      else pickWeighted rand sum' ws'
  end.

(** One cell of [weightedRandomize]: a draw scaled by the total weight
    selects the entry; an array entry costs a second draw. *)
Definition randomIndex (ws : list WeightedIndex) (total : Q) : Rand Z :=
  r ← Math_random;
  match pickWeighted (r * total)%Q 0%Q ws with
  | None => mret (-1)
  | Some (One i) => mret i
  | Some (Among i rest) =>
      r' ← Math_random;
      let k := Qfloor (r' * inject_Z (Z.of_nat (length (i :: rest)))) in
      mret (nth (Z.to_nat k) (i :: rest) i)
  end.

Fixpoint randomizeCells (ws : list WeightedIndex) (total : Q)
    (cells : list (Z * Z)) (L : t) : Rand t :=
  match cells with
  | [] => mret L
  | c :: cells' =>
      i ← randomIndex ws total;
      randomizeCells ws total cells' (setIndex i c L)
  end.

(** [weightedRandomize(weightedIndexes, tileX, tileY, width, height)] *)
Definition weightedRandomize (ws : list WeightedIndex)
    (tileX tileY w h : Z) (L : t) : Rand t :=
  let tiles := GetTilesWithin tileX tileY w h L in
  let total := weightTotal ws in
  if Qle_bool total 0 then mret L
  else randomizeCells ws total tiles L.

(** [putTilesAt] first forces its argument into a grid. *)
Definition toGrid (a : TilesArray) : list (list Z) :=
  match a with
  | Scalar i => [[i]]
  | Row r => [r]
  | Grid g =>
      match g with
      | [] => [[]]
      | _ => g
      end
  end.

Definition putRow (rowWidth : nat) (row : list Z) (tileX y : Z) (L : t) : t :=
  fold_left
    (fun L' tx =>
       match row !! tx with
       | Some i => putTileAt i (tileX + Z.of_nat tx) y L'
       | None => L'
       end)
    (seq 0 rowWidth) L.

Fixpoint putRows (rowWidth : nat) (rows : list (list Z)) (tileX y : Z)
    (L : t) : t :=
  match rows with
  | [] => L
  | row :: rows' => putRows rowWidth rows' tileX (y + 1) (putRow rowWidth row tileX y L)
  end.

(** [putTilesAt(tilesArray, tileX, tileY)]: the pattern is as wide as its
    first row and is written row by row, one [putTileAt] per entry.  (A row
    shorter than the first one would make the engine store [undefined];
    such entries are skipped here and no table entry has them.) *)
Definition putTilesAt (a : TilesArray) (tileX tileY : Z) (L : t) : t :=
  let g := toGrid a in
  putRows (length (hd [] g)) g tileX tileY L.

(** [setCollisionByExclusion(indexes)]: every tile whose index is not listed
    becomes colliding and its index is recorded in [collideIndexes]; listed
    tiles are not touched. *)
Definition excludeStep (indexes : list Z) (L : t) (c : Z * Z) : t :=
  let old := default Tile.blank (data L !! c) in
  if hasIndex (Tile.index old) indexes then L
  else
    mk (width L) (height L)
       (<[c := Tile.mk (Tile.index old) true]> (data L))
       (if hasIndex (Tile.index old) (collideIndexes L)
        then collideIndexes L
        else collideIndexes L ++ [Tile.index old])
       (callbacks L).

Definition setCollisionByExclusion (indexes : list Z) (L : t) : t :=
  fold_left (excludeStep indexes)
            (GetTilesWithin 0 0 (width L) (height L) L) L.

(** [setTileIndexCallback(index, callback)] *)
Definition setTileIndexCallback (i : Z) (cb : TileCallback) (L : t) : t :=
  mk (width L) (height L) (data L) (collideIndexes L) (<[i := cb]> (callbacks L)).

End Layer.

(** ** Rooms and the generated dungeon

    A room is a rectangle on the grid; [left], [right], [top], [bottom] and
    the centre are derived from its origin and size the way the generator
    sets them.  Door locations are relative to the room's origin. *)

Module Room.
Record t := mk {
  x : Z;
  y : Z;
  width : Z;
  height : Z;
  doors : list (Z * Z)
}.

Definition left (r : t) : Z := x r.
Definition right (r : t) : Z := x r + (width r - 1).
Definition top (r : t) : Z := y r.
Definition bottom (r : t) : Z := y r + (height r - 1).
Definition centerX (r : t) : Z := x r + width r / 2.
Definition centerY (r : t) : Z := y r + height r / 2.
Definition getDoorLocations (r : t) : list (Z * Z) := doors r.

(** The cell lies inside the rectangle, border included. *)
Definition covers (r : t) (cx cy : Z) : bool :=
  (left r <=? cx) && (cx <=? right r) && (top r <=? cy) && (cy <=? bottom r).

#[global] Instance eq_dec : EqDecision t.
Proof. solve_decision. Defined.
End Room.

Module Dungeon.
Record t := mk {
  width : Z;
  height : Z;
  rooms : list Room.t
}.

(** [getRoomAt(x, y)]: no room outside the grid, otherwise the first room
    generated over that cell. *)
Definition getRoomAt (tx ty : Z) (d : t) : option Room.t :=
  if (tx <? 0) || (ty <? 0) || (width d <=? tx) || (height d <=? ty) then None
  else find (fun r => Room.covers r tx ty) (rooms d).
End Dungeon.

(** ** Room visibility tracker *)

Inductive Shade := Opaque | Dimmed | Clear.

Inductive Visibility := Unseen | Active | PreviouslySeen.

#[global] Instance Shade_eq_dec : EqDecision Shade.
Proof. solve_decision. Defined.

#[global] Instance Visibility_eq_dec : EqDecision Visibility.
Proof. solve_decision. Defined.

Module TilemapVisibility.

(** Modelled from the spec: the tracker class (tilemap-visibility) is not
    among the sources, only its construction from the shadow layer and the
    per-frame call [setActiveRoom].  The state follows section 3
    ("the active room is tracked explicitly", rooms once entered are
    remembered) and section 4.2 (the transition and its rendering effect on
    the shadow grid). *)
Record t := mk {
  shadowLayer : Layer.t;
  shade : gmap (Z * Z) Shade;
  activeRoom : option Room.t;
  seen : list Room.t
}.

(** Modelled from the spec: a new level starts all-opaque with no active
    room and nothing remembered. *)
Definition new (shadow : Layer.t) : t := mk shadow ∅ None [].

(** Modelled from the spec: the shade of a cell of the shadow grid; cells
    never written still have the initial opaque fill. *)
Definition shadeAt (cx cy : Z) (v : t) : option Shade :=
  if Layer.IsInLayerBounds cx cy (shadowLayer v)
  then Some (default Opaque (shade v !! (cx, cy)))
  else None.

(** Modelled from the spec: every cell of the room gets the given shade. *)
Definition setRoomShade (r : Room.t) (s : Shade) (v : t) : t :=
  let cells :=
    Layer.GetTilesWithin (Room.x r) (Room.y r) (Room.width r) (Room.height r)
                         (shadowLayer v) in
  mk (shadowLayer v)
     (fold_left (fun m c => <[c := s]> m) cells (shade v))
     (activeRoom v) (seen v).

(** Modelled from the spec: nothing happens when the room is the active one;
    otherwise the previous active room (if any) is dimmed and remembered,
    and the new room (if any) is cleared and becomes the active one. *)
Definition setActiveRoom (room : option Room.t) (v : t) : t :=
  if decide (room = activeRoom v) then v
  else
    let v1 :=
      match activeRoom v with
      | Some prev =>
          let d := setRoomShade prev Dimmed v in
          mk (shadowLayer d) (shade d) (activeRoom d) (prev :: seen d)
      | None => v
      end in
    let v2 :=
      match room with
      | Some r => setRoomShade r Clear v1
      | None => v1
      end in
    mk (shadowLayer v2) (shade v2) room (seen v2).

(** Modelled from the spec: the state of a room as section 4.2 names it. *)
Definition visibility (r : Room.t) (v : t) : Visibility :=
  if decide (activeRoom v = Some r) then Active
  else if decide (r ∈ seen v) then PreviouslySeen
  else Unseen.

End TilemapVisibility.

(** ** Array helpers used by the room classification *)

(** [array.shift()] *)
Definition shift {A} (l : list A) : option A * list A :=
  match l with
  | [] => (None, [])
  | a :: l' => (Some a, l')
  end.

(** [SpliceOne(array, index)]: nothing when the index is past the end. *)
Definition SpliceOne {A} (l : list A) (i : nat) : option A * list A :=
  match l !! i with
  | None => (None, l)
  | Some a => (Some a, take i l ++ drop (S i) l)
  end.

(** [Phaser.Utils.Array.RemoveRandomElement(array)] *)
Definition RemoveRandomElement {A} (l : list A) : Rand (option A * list A) :=
  r ← Math_random;
  let randomIndex := 0 + Qfloor (r * inject_Z (Z.of_nat (length l))) in
  mret (SpliceOne l (Z.to_nat randomIndex)).

(** [temp = a[i]; a[i] = a[j]; a[j] = temp] *)
Definition swap {A} (i j : nat) (l : list A) : list A :=
  match l !! i, l !! j with
  | Some a, Some b => <[j := a]> (<[i := b]> l)
  | _, _ => l
  end.

(** The loop of [Shuffle]: [for (i = length - 1; i > 0; i--)]. *)
Fixpoint shuffleFrom {A} (i : nat) (l : list A) : Rand (list A) :=
  match i with
  | O => mret l
  | S i' =>
      r ← Math_random;
      let j := Qfloor (r * inject_Z (Z.of_nat i + 1)) in
      shuffleFrom i' (swap i (Z.to_nat j) l)
  end.

(** [Phaser.Utils.Array.Shuffle(array)] *)
Definition Shuffle {A} (l : list A) : Rand (list A) :=
  shuffleFrom (length l - 1)%nat l.

(** [array.slice(0, end)] for an end that is not negative: the end is
    truncated to an integer and capped by the length. *)
Definition slice0 {A} (l : list A) (e : Q) : list A :=
  take (Z.to_nat (Qfloor e)) l.

(** ** The scene *)

Inductive Edge := EdgeTop | EdgeBottom | EdgeLeft | EdgeRight.

#[global] Instance Edge_eq_dec : EqDecision Edge.
Proof. solve_decision. Defined.

(** What the scene asks of its host besides the tile layers. *)
Inductive HostEffect :=
| PlayerFreeze
| CameraFade (duration red green blue : Z)
| OnceCameraFadeOutComplete.

#[global] Instance HostEffect_eq_dec : EqDecision HostEffect.
Proof. solve_decision. Defined.

Section DungeonScene.

(** The tile table and the player class are separate modules of the game;
    the scene is parametric in them. *)
Variable TILES : TileMapping.
Variable Player : Type.
Variable Keys : Type.
Variable newPlayer : Z -> Z -> Player.
Variable playerUpdate : Keys -> Player -> Player.
Variable playerFreeze : Player -> Player.
Variable spriteX spriteY : Player -> Q.

Record Scene := mkScene {
  player : Player;
  dungeon : Dungeon.t;
  groundLayer : Layer.t;
  stuffLayer : Layer.t;
  level : Z;
  hasPlayerReachedStairs : bool;
  tilemapVisibility : TilemapVisibility.t;
  hostEffects : list HostEffect
}.

(** *** Floor, corners and walls of one room *)

Definition placeFloorAndWalls (room : Room.t) (ground : Layer.t)
  : Rand Layer.t :=
  let x := Room.x room in
  let y := Room.y room in
  let width := Room.width room in
  let height := Room.height room in
  let left := Room.left room in
  let right := Room.right room in
  let top := Room.top room in
  let bottom := Room.bottom room in
  g ← Layer.weightedRandomize (FLOOR TILES) (x + 1) (y + 1)
        (width - 2) (height - 2) ground;
  let g := Layer.putTileAt (Wall.TOP_LEFT (WALL TILES)) left top g in
  let g := Layer.putTileAt (Wall.TOP_RIGHT (WALL TILES)) right top g in
  let g := Layer.putTileAt (Wall.BOTTOM_RIGHT (WALL TILES)) right bottom g in
  let g := Layer.putTileAt (Wall.BOTTOM_LEFT (WALL TILES)) left bottom g in
  g ← Layer.weightedRandomize (Wall.TOP (WALL TILES)) (left + 1) top
        (width - 2) 1 g;
  g ← Layer.weightedRandomize (Wall.BOTTOM (WALL TILES)) (left + 1) bottom
        (width - 2) 1 g;
  g ← Layer.weightedRandomize (Wall.LEFT (WALL TILES)) left (top + 1)
        1 (height - 2) g;
  Layer.weightedRandomize (Wall.RIGHT (WALL TILES)) right (top + 1)
        1 (height - 2) g.

(** *** Doors *)

(** One iteration of the door loop, as the scene writes it. *)
Definition placeDoor (room : Room.t) (ground : Layer.t) (door : Z * Z)
  : Layer.t :=
  let x := Room.x room in
  let y := Room.y room in
  let (dx, dy) := door in
  if dy =? 0 then
    Layer.putTilesAt (Door.TOP (DOOR TILES)) (x + dx - 1) (y + dy) ground
  else if dy =? Room.height room - 1 then
    Layer.putTilesAt (Door.BOTTOM (DOOR TILES)) (x + dx - 1) (y + dy) ground
  else if dx =? 0 then
    Layer.putTilesAt (Door.LEFT (DOOR TILES)) (x + dx) (y + dy - 1) ground
  else if dx =? Room.width room - 1 then
    Layer.putTilesAt (Door.RIGHT (DOOR TILES)) (x + dx) (y + dy - 1) ground
  else ground.

Definition placeDoors (room : Room.t) (ground : Layer.t) : Layer.t :=
  fold_left (placeDoor room) (Room.getDoorLocations room) ground.

(** The body of [dungeon.rooms.forEach]. *)
Definition paintRoom (ground : Layer.t) (room : Room.t) : Rand Layer.t :=
  g ← placeFloorAndWalls room ground;
  mret (placeDoors room g).

Fixpoint paintRooms (rooms : list Room.t) (ground : Layer.t) : Rand Layer.t :=
  match rooms with
  | [] => mret ground
  | room :: rooms' =>
      g ← paintRoom ground room;
      paintRooms rooms' g
  end.

(** *** Start room, end room and the rooms that get props *)

(** The variables the classification leaves behind: [rooms] is the working
    copy after the start and end rooms were taken out and the rest was
    shuffled in place. *)
Record Separation := mkSeparation {
  startRoom : option Room.t;
  endRoom : option Room.t;
  rooms : list Room.t;
  otherRooms : list Room.t
}.

(** [rooms.length * 0.9] is computed on rationals; for every length a
    dungeon can have, truncating the floating-point product gives the same
    integer. *)
Definition separateRooms (d : Dungeon.t) : Rand Separation :=
  let rooms := Dungeon.rooms d in
  let '(startRoom, rooms) := shift rooms in
  '(endRoom, rooms) ← RemoveRandomElement rooms;
  rooms ← Shuffle rooms;
  let otherRooms :=
    slice0 rooms (inject_Z (Z.of_nat (length rooms)) * (9 # 10))%Q in
  mret (mkSeparation startRoom endRoom rooms otherRooms).

(** *** Props *)

(** The body of [otherRooms.forEach]. *)
Definition placeStuff (stuff : Layer.t) (room : Room.t) : Rand Layer.t :=
  rand ← Math_random;
  if Qle_bool rand (1 # 4) then
    mret (Layer.putTileAt (CHEST TILES) (Room.centerX room)
                          (Room.centerY room) stuff)
  else if Qle_bool rand (1 # 2) then
    x ← Between (Room.left room + 2) (Room.right room - 2);
    y ← Between (Room.top room + 2) (Room.bottom room - 2);
    Layer.weightedRandomize (POT TILES) x y 1 1 stuff
  else if 9 <=? Room.height room then
    let s := Layer.putTilesAt (TOWER TILES) (Room.centerX room - 1)
                              (Room.centerY room + 1) stuff in
    let s := Layer.putTilesAt (TOWER TILES) (Room.centerX room + 1)
                              (Room.centerY room + 1) s in
    let s := Layer.putTilesAt (TOWER TILES) (Room.centerX room - 1)
                              (Room.centerY room - 2) s in
    mret (Layer.putTilesAt (TOWER TILES) (Room.centerX room + 1)
                           (Room.centerY room - 2) s)
  else
    let s := Layer.putTilesAt (TOWER TILES) (Room.centerX room - 1)
                              (Room.centerY room - 1) stuff in
    mret (Layer.putTilesAt (TOWER TILES) (Room.centerX room + 1)
                           (Room.centerY room - 1) s).

Fixpoint placeAllStuff (rooms : list Room.t) (stuff : Layer.t)
  : Rand Layer.t :=
  match rooms with
  | [] => mret stuff
  | room :: rooms' =>
      s ← placeStuff stuff room;
      placeAllStuff rooms' s
  end.

(** The index list both layers are given for collision. *)
Definition walkable : list Z := [-1; 6; 7; 8; 26].

(** *** [create]

    The generated dungeon is an input.  [create] has no result when the end
    room is undefined (fewer than two rooms): reading its centre throws. *)
Definition create (d : Dungeon.t) (s : Scene) : Rand (option Scene) :=
  let level' := level s + 1 in
  let ground :=
    Layer.fill (BLANK TILES)
      (Layer.createBlankLayer (Dungeon.width d) (Dungeon.height d)) in
  let stuff := Layer.createBlankLayer (Dungeon.width d) (Dungeon.height d) in
  let shadowLayer :=
    Layer.fill (BLANK TILES)
      (Layer.createBlankLayer (Dungeon.width d) (Dungeon.height d)) in
  let visibility := TilemapVisibility.new shadowLayer in
  ground ← paintRooms (Dungeon.rooms d) ground;
  sep ← separateRooms d;
  match endRoom sep, startRoom sep with
  | Some endRoom, Some playerRoom =>
      let stuff :=
        Layer.putTileAt (STAIRS TILES) (Room.centerX endRoom)
                        (Room.centerY endRoom) stuff in
      stuff ← placeAllStuff (otherRooms sep) stuff;
      let ground := Layer.setCollisionByExclusion walkable ground in
      let stuff := Layer.setCollisionByExclusion walkable stuff in
      let stuff :=
        Layer.setTileIndexCallback (STAIRS TILES) ReachedStairs stuff in
      let x := Room.centerX playerRoom * 48 in
      let y := Room.centerY playerRoom * 48 in
      mret (Some (mkScene (newPlayer x y) d ground stuff level' false
                          visibility (hostEffects s)))
  | _, _ => mret None
  end.

(** *** The stairs callback and the frame update *)

(** The statements of the goal handler, one state change each. *)
Definition setStairsCallback (cb : TileCallback) (s : Scene) : Scene :=
  mkScene (player s) (dungeon s) (groundLayer s)
          (Layer.setTileIndexCallback (STAIRS TILES) cb (stuffLayer s))
          (level s) (hasPlayerReachedStairs s) (tilemapVisibility s)
          (hostEffects s).

Definition setReachedStairs (b : bool) (s : Scene) : Scene :=
  mkScene (player s) (dungeon s) (groundLayer s) (stuffLayer s) (level s) b
          (tilemapVisibility s) (hostEffects s).

Definition emit (e : HostEffect) (s : Scene) : Scene :=
  mkScene (player s) (dungeon s) (groundLayer s) (stuffLayer s) (level s)
          (hasPlayerReachedStairs s) (tilemapVisibility s)
          (hostEffects s ++ [e]).

Definition freezePlayer (s : Scene) : Scene :=
  emit PlayerFreeze
       (mkScene (playerFreeze (player s)) (dungeon s) (groundLayer s)
                (stuffLayer s) (level s) (hasPlayerReachedStairs s)
                (tilemapVisibility s) (hostEffects s)).

(** The goal handler after its first statement: flag, freeze, fade, and the
    one-shot listener that restarts the scene. *)
Definition reachStairs (s : Scene) : Scene :=
  let s := setReachedStairs true s in
  let s := freezePlayer s in
  let s := emit (CameraFade 250 0 0 0) s in
  emit OnceCameraFadeOutComplete s.

(** What a registered tile callback does.  The goal handler first swaps
    itself for the empty function. *)
Definition runCallback (cb : TileCallback) (s : Scene) : Scene :=
  match cb with
  | NoOp => s
  | ReachedStairs => reachStairs (setStairsCallback NoOp s)
  end.

(** The physics step found the player over a tile of the stuff layer: the
    callback registered for the tile's index, if any, is invoked. *)
Definition overlapTile (i : Z) (s : Scene) : Scene :=
  match Layer.callbacks (stuffLayer s) !! i with
  | Some cb => runCallback cb s
  | None => s
  end.

Definition worldToTile (world : Q) : Z := Qfloor (world / 48).

(** [update(time, delta)], with the keyboard state the player reads. *)
Definition update (keys : Keys) (time delta : Q) (s : Scene) : Scene :=
  if hasPlayerReachedStairs s then s
  else
    let p := playerUpdate keys (player s) in
    let playerTileX := worldToTile (spriteX p) in
    let playerTileY := worldToTile (spriteY p) in
    let playerRoom := Dungeon.getRoomAt playerTileX playerTileY (dungeon s) in
    mkScene p (dungeon s) (groundLayer s) (stuffLayer s) (level s)
            (hasPlayerReachedStairs s)
            (TilemapVisibility.setActiveRoom playerRoom (tilemapVisibility s))
            (hostEffects s).

End DungeonScene.

(** * Vocabulary of the properties *)

(** ** Reasoning about random computations

    [returns m P]: from any well-formed random source, [m] yields a value
    satisfying [P] and leaves the source well formed. *)

Definition returns {A} (m : Rand A) (P : A -> Prop) : Prop :=
  forall g, rng_ok g -> P (m g).1 /\ rng_ok (m g).2.

(** ** The layer operations, cell by cell *)

Definition inRect (tileX tileY w h cx cy : Z) : Prop :=
  tileX <= cx < tileX + w /\ tileY <= cy < tileY + h.

(** Same size, same collision list, same callbacks. *)
Definition sameFrame (L L' : Layer.t) : Prop :=
  Layer.width L' = Layer.width L /\ Layer.height L' = Layer.height L /\
  Layer.collideIndexes L' = Layer.collideIndexes L /\
  Layer.callbacks L' = Layer.callbacks L.

(** No tile collides yet. *)
Definition noCollision (L : Layer.t) : Prop :=
  Layer.collideIndexes L = [] /\
  forall c t, Layer.data L !! c = Some t -> Tile.collides t = false.

(** A table entry usable for a weighted fill: the weights add up to
    something positive. *)
Definition weighted_ok (ws : list WeightedIndex) : Prop :=
  (0 < weightTotal ws)%Q.

(** What a weighted fill over [cells] leaves behind when every chosen index
    satisfies [P]. *)
Definition filledWith (P : Z -> Prop) (cells : list (Z * Z))
    (L L' : Layer.t) : Prop :=
  sameFrame L L' /\
  (noCollision L -> noCollision L') /\
  (forall c, c ∈ cells ->
     exists t, Layer.data L' !! c = Some t /\ P (Tile.index t)) /\
  (forall c, c ∉ cells -> Layer.data L' !! c = Layer.data L !! c).

(** The frame of a weighted fill: whatever the weights, the layer keeps its
    shape and the cells outside the rectangle keep their tile. *)
Definition paintedOutside (tileX tileY w h : Z) (L L' : Layer.t) : Prop :=
  sameFrame L L' /\
  (noCollision L -> noCollision L') /\
  (forall cx cy, ~ inRect tileX tileY w h cx cy ->
     Layer.tileAt cx cy L' = Layer.tileAt cx cy L).

(** ** Floor, walls and corners of a room *)


(** On the layer [L'], the cell holds an index satisfying [P] whenever it
    is a cell of the grid [L]. *)
Definition holds (L L' : Layer.t) (cx cy : Z) (P : Z -> Prop) : Prop :=
  Layer.IsInLayerBounds cx cy L = true ->
  exists i, Layer.indexAt cx cy L' = Some i /\ P i.


(** ** Doors *)

(** The edge the door loop settles on, read off its chain of tests. *)
Definition doorEdge (roomWidth roomHeight dx dy : Z) : option Edge :=
  if dy =? 0 then Some EdgeTop
  else if dy =? roomHeight - 1 then Some EdgeBottom
  else if dx =? 0 then Some EdgeLeft
  else if dx =? roomWidth - 1 then Some EdgeRight
  else None.

(** The condition that places a door on an edge. *)
Definition onEdge (roomWidth roomHeight dx dy : Z) (e : Edge) : bool :=
  match e with
  | EdgeTop => dy =? 0
  | EdgeBottom => dy =? roomHeight - 1
  | EdgeLeft => dx =? 0
  | EdgeRight => dx =? roomWidth - 1
  end.

(** The conditions a door satisfies, in the order top, bottom, left,
    right. *)
Definition edgeConditions (roomWidth roomHeight dx dy : Z) : list Edge :=
  List.filter (onEdge roomWidth roomHeight dx dy)
              [EdgeTop; EdgeBottom; EdgeLeft; EdgeRight].

Definition doorTiles (T : TileMapping) (e : Edge) : TilesArray :=
  match e with
  | EdgeTop => Door.TOP (DOOR T)
  | EdgeBottom => Door.BOTTOM (DOOR T)
  | EdgeLeft => Door.LEFT (DOOR T)
  | EdgeRight => Door.RIGHT (DOOR T)
  end.

(** The door's own cell on the grid. *)
Definition doorCell (room : Room.t) (door : Z * Z) : Z * Z :=
  (Room.x room + door.1, Room.y room + door.2).

(** One cell before [c] along the axis of the edge: to the left on a
    horizontal edge, above on a vertical one. *)
Definition oneBefore (e : Edge) (c : Z * Z) : Z * Z :=
  match e with
  | EdgeTop | EdgeBottom => (c.1 - 1, c.2)
  | EdgeLeft | EdgeRight => (c.1, c.2 - 1)
  end.

(** ** Pattern stamps *)

Definition patWidth (a : TilesArray) : nat := length (hd [] (Layer.toGrid a)).
Definition patHeight (a : TilesArray) : nat := length (Layer.toGrid a).

(** Entry of the pattern at column [k] of row [j], within the stamped
    width. *)
Definition patternAt (a : TilesArray) (k j : nat) : option Z :=
  match Layer.toGrid a !! j with
  | Some row => if decide (k < patWidth a)%nat then row !! k else None
  | None => None
  end.

(** ** Props *)

(** Where the tower pattern is stamped in a room. *)
Definition towerAnchors (room : Room.t) : list (Z * Z) :=
  let cx := Room.centerX room in
  let cy := Room.centerY room in
  if 9 <=? Room.height room
  then [(cx - 1, cy + 1); (cx + 1, cy + 1); (cx - 1, cy - 2); (cx + 1, cy - 2)]
  else [(cx - 1, cy - 1); (cx + 1, cy - 1)].

(** The pattern stamped at each anchor in turn. *)
Definition stampAll (a : TilesArray) (anchors : list (Z * Z)) (L : Layer.t)
  : Layer.t :=
  fold_left (fun L' p => Layer.putTilesAt a p.1 p.2 L') anchors L.

(** The outcome of the pot branch. *)
Definition potPlaced (T : TileMapping) (room : Room.t)
    (stuff placed : Layer.t) : Prop :=
  exists px py,
    Room.left room + 2 <= px <= Room.right room - 2 /\
    Room.top room + 2 <= py <= Room.bottom room - 2 /\
    (weighted_ok (POT T) ->
     holds stuff placed px py (fun i => i ∈ alternatives (POT T))) /\
    (forall cx cy, (cx, cy) <> (px, py) ->
       Layer.tileAt cx cy placed = Layer.tileAt cx cy stuff).



(** ** What painting never changes *)

(** The layer keeps its frame, and stays free of colliding tiles if it was. *)
Definition kept (L L' : Layer.t) : Prop :=
  sameFrame L L' /\ (noCollision L -> noCollision L').

(** ** Collision by exclusion *)

(** The tile object at a cell of the layer's array. *)
Definition cellTile (L : Layer.t) (c : Z * Z) : Tile.t :=
  default Tile.blank (Layer.data L !! c).

Definition excluded (indexes : list Z) (cells : list (Z * Z))
    (L L' : Layer.t) : Prop :=
  Layer.width L' = Layer.width L /\ Layer.height L' = Layer.height L /\
  Layer.callbacks L' = Layer.callbacks L /\
  (forall c, Tile.index (cellTile L' c) = Tile.index (cellTile L c)) /\
  (forall c, Layer.hasIndex (Tile.index (cellTile L c)) indexes = true ->
     Tile.collides (cellTile L' c) = Tile.collides (cellTile L c)) /\
  (forall c, Tile.collides (cellTile L c) = true ->
     Tile.collides (cellTile L' c) = true) /\
  (forall c, c ∈ cells ->
     Layer.hasIndex (Tile.index (cellTile L c)) indexes = false ->
     Tile.collides (cellTile L' c) = true).

(** ** The stages of [create] *)

Definition blankGround (T : TileMapping) (d : Dungeon.t) : Layer.t :=
  Layer.fill (BLANK T)
    (Layer.createBlankLayer (Dungeon.width d) (Dungeon.height d)).

Definition blankStuff (d : Dungeon.t) : Layer.t :=
  Layer.createBlankLayer (Dungeon.width d) (Dungeon.height d).

(** The ground layer once every room is painted, and the random source
    left over. *)
Definition paintStage (T : TileMapping) (d : Dungeon.t) (g : Rng)
  : Layer.t * Rng :=
  paintRooms T (Dungeon.rooms d) (blankGround T d) g.

Definition separateStage (T : TileMapping) (d : Dungeon.t) (g : Rng)
  : Separation * Rng :=
  separateRooms d (paintStage T d g).2.

(** The stuff layer with the stairs in the end room [e] and the props of
    the prop rooms. *)
Definition stuffStage (T : TileMapping) (d : Dungeon.t) (g : Rng)
    (e : Room.t) : Layer.t * Rng :=
  placeAllStuff T (otherRooms (separateStage T d g).1)
    (Layer.putTileAt (STAIRS T) (Room.centerX e) (Room.centerY e)
                     (blankStuff d))
    (separateStage T d g).2.

(** The tower pattern is at most 2 wide and 3 high: stamped at the anchors
    of a room of the configured size, it stays inside the room. *)
Definition towerFits (T : TileMapping) : Prop :=
  (patWidth (TOWER T) <= 2)%nat /\ (patHeight (TOWER T) <= 3)%nat.

(** ** Rooms of a generated dungeon *)

(** The generator never lets two rooms overlap. *)
Definition roomsApart (a b : Room.t) : Prop :=
  Room.right a < Room.left b \/ Room.right b < Room.left a \/
  Room.bottom a < Room.top b \/ Room.bottom b < Room.top a.

Fixpoint pairwiseApart (rs : list Room.t) : Prop :=
  match rs with
  | [] => True
  | r :: rs' => Forall (roomsApart r) rs' /\ pairwiseApart rs'
  end.

(** The scene asks the generator for rooms at least 7 wide and 7 high. *)
Definition roomSized (r : Room.t) : Prop :=
  7 <= Room.width r /\ 7 <= Room.height r.

(** ** Visibility tracker *)

Module TV := TilemapVisibility.

(** A sequence of per-frame calls. *)
Definition setActiveRooms (calls : list (option Room.t)) (v : TV.t) : TV.t :=
  fold_left (fun v' room => TV.setActiveRoom room v') calls v.

(** The room is the active one or has been left before. *)
Definition remembered (r : Room.t) (v : TV.t) : Prop :=
  TV.activeRoom v = Some r \/ r ∈ TV.seen v.

(** No cell of a remembered room is opaque. *)
Definition revealed (v : TV.t) : Prop :=
  forall r cx cy sh,
    remembered r v -> Room.covers r cx cy = true ->
    TV.shadeAt cx cy v = Some sh -> sh <> Opaque.

(** ** The frame update and the stairs trigger *)

(** What happens to a running scene: the physics step reports an overlap
    with a tile of the stuff layer, or the host calls [update]. *)
Inductive Event (Keys : Type) :=
| Overlap (tileIndex : Z)
| Frame (keys : Keys) (time delta : Q).

Arguments Overlap {Keys} tileIndex.
Arguments Frame {Keys} keys time delta.

(** The effects of the goal handler, in the order it asks for them. *)
Definition goalSequence : list HostEffect :=
  [PlayerFreeze; CameraFade 250 0 0 0; OnceCameraFadeOutComplete].

Section SceneEvents.

Variable TILES : TileMapping.
Variable Player : Type.
Variable Keys : Type.
Variable playerUpdate : Keys -> Player -> Player.
Variable playerFreeze : Player -> Player.
Variable spriteX spriteY : Player -> Q.

Definition step (s : Scene Player) (e : Event Keys) : Scene Player :=
  match e with
  | Overlap i => overlapTile TILES Player playerFreeze i s
  | Frame keys time delta =>
      update Player Keys playerUpdate spriteX spriteY keys time delta s
  end.

Definition run (events : list (Event Keys)) (s : Scene Player) : Scene Player :=
  fold_left step events s.

(** The goal handler, if registered at all, is registered for the stairs
    index, and only while the goal has not been reached. *)
Definition armedOnlyOnStairs (s : Scene Player) : Prop :=
  forall i, Layer.callbacks (stuffLayer Player s) !! i = Some ReachedStairs ->
    i = STAIRS TILES /\ hasPlayerReachedStairs Player s = false.

End SceneEvents.

(** * A sample level

    A tile table of the shape the scene expects, five rooms laid out the
    way the generator lays them out (apart, odd sizes from 7 to 9, doors on
    the walls) and a random source cycling through tenths. *)

Definition demoTiles : TileMapping :=
  mkTiles 20
    (Wall.mk 3 4 23 22
       [mkWeighted (One 39) 4; mkWeighted (Among 57 [58; 59]) 1]
       [mkWeighted (One 21) 4; mkWeighted (Among 76 [95; 114]) 1]
       [mkWeighted (One 19) 4; mkWeighted (Among 77 [96; 115]) 1]
       [mkWeighted (One 1) 4; mkWeighted (Among 78 [79; 80]) 1])
    [mkWeighted (One 6) 9; mkWeighted (Among 7 [8; 26]) 1]
    [mkWeighted (One 13) 1; mkWeighted (One 32) 1; mkWeighted (One 51) 1]
    (Door.mk (Row [40; 6; 38]) (Grid [[40]; [6]; [2]])
             (Row [2; 6; 0]) (Grid [[38]; [6]; [0]]))
    166 81 (Grid [[186]; [205]]).

Definition demoRooms : list Room.t :=
  [Room.mk 1 1 7 7 [(6, 3)];
   Room.mk 8 1 9 9 [(0, 3); (8, 4)];
   Room.mk 17 1 7 7 [(0, 4); (6, 2)];
   Room.mk 24 1 7 9 [(0, 2); (3, 8)];
   Room.mk 24 10 7 7 [(3, 0)]].

Definition demoRoom : Room.t := Room.mk 8 1 9 9 [(0, 3); (8, 4)].

Definition demoDungeon : Dungeon.t := Dungeon.mk 50 50 demoRooms.

Definition demoRng : Rng :=
  mkRng (fun n => Z.of_nat (n * 7 mod 10) # 10) 0.

(** A scene before its first [create]; the player is a unit value. *)
Definition demoScene : Scene unit :=
  mkScene unit tt (Dungeon.mk 0 0 [])
          (Layer.createBlankLayer 0 0) (Layer.createBlankLayer 0 0)
          0 false (TilemapVisibility.new (Layer.createBlankLayer 0 0)) [].

Definition demoCreated : option (Scene unit) :=
  (create demoTiles unit (fun _ _ => tt) demoDungeon demoScene demoRng).1.

(** The ground indices of the created level over a window of the grid. *)
Definition demoGroundRow (cy : Z) : list Z :=
  match demoCreated with
  | Some s => map (fun cx => default 0 (Layer.indexAt cx cy (groundLayer unit s)))
                  (seqZ 0 17)
  | None => []
  end.

(** A random source that takes the fourth room as end room and shuffles
    the remaining rooms 1, 2, 4 into the order 1, 4, 2. *)
Definition scenarioRng : Rng :=
  mkRng (fun n => nth n [1 # 2; 2 # 5; 3 # 5] 0%Q) 0.

Definition roomA : Room.t := Room.mk 1 1 7 7 [(6, 3)].

Definition roomB : Room.t := demoRoom.

(** * More of the scene: vocabulary *)

(** [scene.restart()] runs [create] again on the same scene object, with a
    freshly generated dungeon; a run of levels is a chain of such calls that
    stops at the first [create] that throws. *)
Fixpoint restarts (T : TileMapping) (Player : Type)
    (newPlayer : Z -> Z -> Player) (ds : list Dungeon.t) (s : Scene Player)
  : Rand (option (Scene Player)) :=
  match ds with
  | [] => mret (Some s)
  | d :: ds' =>
      r ← create T Player newPlayer d s;
      match r with
      | Some s' => restarts T Player newPlayer ds' s'
      | None => mret None
      end
  end.

(** What [create] leaves in the scene fields that do not depend on the
    painting. *)
Definition created (T : TileMapping) (Player : Type) (d : Dungeon.t)
    (s : Scene Player) (r : option (Scene Player)) : Prop :=
  match r with
  | Some s' =>
      (2 <= length (Dungeon.rooms d))%nat /\
      level Player s' = level Player s + 1 /\
      hasPlayerReachedStairs Player s' = false /\
      hostEffects Player s' = hostEffects Player s /\
      dungeon Player s' = d /\
      Layer.callbacks (stuffLayer Player s') = {[STAIRS T := ReachedStairs]}
  | None => (length (Dungeon.rooms d) < 2)%nat
  end.

(** [map.tileToWorldX] / [tileToWorldY] for 48-pixel tiles: the left (top)
    edge of the tile, as [create] computes it for the player. *)
Definition tileToWorld (tile : Z) : Z := tile * 48.

(** The room lies on the dungeon's grid. *)
Definition roomInGrid (d : Dungeon.t) (r : Room.t) : Prop :=
  0 <= Room.x r /\ Room.x r + Room.width r <= Dungeon.width d /\
  0 <= Room.y r /\ Room.y r + Room.height r <= Dungeon.height d.


(** Two cells or more away from each wall of the room. *)
Definition wellInside (room : Room.t) (cx cy : Z) : Prop :=
  Room.left room + 2 <= cx <= Room.right room - 2 /\
  Room.top room + 2 <= cy <= Room.bottom room - 2.

#[global] Instance wellInside_dec room cx cy : Decision (wellInside room cx cy).
Proof. unfold wellInside. apply _. Defined.

(** The entries of a pattern, row after row. *)
Definition patternEntries (a : TilesArray) : list Z := concat (Layer.toGrid a).

(** The indexes a prop can write on the stuff layer. *)
Definition propIndexes (T : TileMapping) : list Z :=
  CHEST T :: alternatives (POT T) ++ patternEntries (TOWER T).

(** Every index of [L'] is one that [L] has on the same cell, or satisfies
    [P]. *)
Definition onlyAdds (P : Z -> Prop) (L L' : Layer.t) : Prop :=
  forall cx cy j, Layer.indexAt cx cy L' = Some j ->
    P j \/ Layer.indexAt cx cy L = Some j.

(** ** Rooms on the final ground layer *)

(** The top and bottom door patterns are rows of at most three tiles, the
    left and right ones columns of at most three tiles. *)
Definition doorTable_ok (T : TileMapping) : Prop :=
  (patWidth (Door.TOP (DOOR T)) <= 3)%nat /\
  (patHeight (Door.TOP (DOOR T)) <= 1)%nat /\
  (patWidth (Door.BOTTOM (DOOR T)) <= 3)%nat /\
  (patHeight (Door.BOTTOM (DOOR T)) <= 1)%nat /\
  (patWidth (Door.LEFT (DOOR T)) <= 1)%nat /\
  (patHeight (Door.LEFT (DOOR T)) <= 3)%nat /\
  (patWidth (Door.RIGHT (DOOR T)) <= 1)%nat /\
  (patHeight (Door.RIGHT (DOOR T)) <= 3)%nat.

(** The generator is configured with [doorPadding: 2]: a door lies on a
    wall, two tiles or more away from the corners. *)
Definition doorPadded (room : Room.t) (door : Z * Z) : Prop :=
  match doorEdge (Room.width room) (Room.height room) door.1 door.2 with
  | Some EdgeTop | Some EdgeBottom => 2 <= door.1 <= Room.width room - 3
  | Some EdgeLeft | Some EdgeRight => 2 <= door.2 <= Room.height room - 3
  | None => True
  end.

Definition doorsPadded (room : Room.t) : Prop :=
  Forall (doorPadded room) (Room.getDoorLocations room).

(** A wall cell of the room that is not a corner. *)
Definition wallRun (room : Room.t) (cx cy : Z) : Prop :=
  ((cy = Room.top room \/ cy = Room.bottom room) /\
   Room.left room + 1 <= cx <= Room.right room - 1) \/
  ((cx = Room.left room \/ cx = Room.right room) /\
   Room.top room + 1 <= cy <= Room.bottom room - 1).

(** Floor inside, the four corner tiles at the corners. *)
Definition floorAndCorners (T : TileMapping) (room : Room.t)
    (ground painted : Layer.t) : Prop :=
  (forall cx cy,
     inRect (Room.x room + 1) (Room.y room + 1)
            (Room.width room - 2) (Room.height room - 2) cx cy ->
     holds ground painted cx cy (fun i => i ∈ alternatives (FLOOR T))) /\
  holds ground painted (Room.left room) (Room.top room)
        (fun i => i = Wall.TOP_LEFT (WALL T)) /\
  holds ground painted (Room.right room) (Room.top room)
        (fun i => i = Wall.TOP_RIGHT (WALL T)) /\
  holds ground painted (Room.right room) (Room.bottom room)
        (fun i => i = Wall.BOTTOM_RIGHT (WALL T)) /\
  holds ground painted (Room.left room) (Room.bottom room)
        (fun i => i = Wall.BOTTOM_LEFT (WALL T)).

(** The cells of the room where [floorAndCorners] speaks. *)
Definition floorOrCorner (room : Room.t) (cx cy : Z) : Prop :=
  inRect (Room.x room + 1) (Room.y room + 1)
         (Room.width room - 2) (Room.height room - 2) cx cy \/
  ((cx = Room.left room \/ cx = Room.right room) /\
   (cy = Room.top room \/ cy = Room.bottom room)).

(** The indexes the rooms loop can write on the ground layer. *)
Definition roomIndexes (T : TileMapping) : list Z :=
  alternatives (FLOOR T) ++
  [Wall.TOP_LEFT (WALL T); Wall.TOP_RIGHT (WALL T);
   Wall.BOTTOM_RIGHT (WALL T); Wall.BOTTOM_LEFT (WALL T)] ++
  alternatives (Wall.TOP (WALL T)) ++ alternatives (Wall.BOTTOM (WALL T)) ++
  alternatives (Wall.LEFT (WALL T)) ++ alternatives (Wall.RIGHT (WALL T)) ++
  patternEntries (Door.TOP (DOOR T)) ++ patternEntries (Door.BOTTOM (DOOR T)) ++
  patternEntries (Door.LEFT (DOOR T)) ++ patternEntries (Door.RIGHT (DOOR T)).

(** * Properties *)

(** ** Random computations *)

Lemma returns_ret {A} (a : A) (P : A -> Prop) : P a -> returns (mret a) P.
Proof. intros Ha g Hg. split; assumption. Qed.

Lemma returns_bind {A B} (m : Rand A) (k : A -> Rand B)
    (P : A -> Prop) (R : B -> Prop) :
  returns m P -> (forall a, P a -> returns (k a) R) -> returns (m ≫= k) R.
Proof.
  intros Hm Hk g Hg. unfold mbind, rand_bind.
  destruct (Hm g Hg) as [Ha Hg']. destruct (m g) as [a g']. simpl in *.
  exact (Hk a Ha g' Hg').
Qed.

Lemma returns_weaken {A} (m : Rand A) (P R : A -> Prop) :
  returns m P -> (forall a, P a -> R a) -> returns m R.
Proof. intros Hm HPR g Hg. destruct (Hm g Hg). split; auto. Qed.

Lemma returns_random :
  returns Math_random (fun r => (0 <= r)%Q /\ (r < 1)%Q).
Proof. intros g Hg. split; [apply Hg | exact Hg]. Qed.

(** A draw scaled to [n] slots falls on one of them. *)
Lemma floor_scaled (r : Q) (n : Z) :
  (0 <= r)%Q -> (r < 1)%Q -> 0 < n -> 0 <= Qfloor (r * inject_Z n) < n.
Proof.
  intros H0 H1 Hn.
  assert (Hq : (0 < inject_Z n)%Q)
    by (change (inject_Z 0 < inject_Z n)%Q; rewrite <- Zlt_Qlt; exact Hn).
  split.
  - change 0 with (Qfloor (inject_Z 0)). apply Qfloor_resp_le.
    change (inject_Z 0) with 0%Q. nra.
  - apply Z.lt_nge. intros Hge.
    assert (Hle : (inject_Z n <= r * inject_Z n)%Q).
    { eapply Qle_trans; [| apply Qfloor_le]. rewrite <- Zle_Qle. exact Hge. }
    nra.
Qed.

Lemma between_bounds (r : Q) (lo hi : Z) :
  (0 <= r)%Q -> (r < 1)%Q -> lo <= hi ->
  lo <= Qfloor (r * inject_Z (hi - lo + 1) + inject_Z lo) <= hi.
Proof.
  intros H0 H1 Hle.
  assert (Hq : (0 < inject_Z (hi - lo + 1))%Q)
    by (change (inject_Z 0 < inject_Z (hi - lo + 1))%Q; rewrite <- Zlt_Qlt; lia).
  split.
  - rewrite <- (Qfloor_Z lo) at 1. apply Qfloor_resp_le. nra.
  - apply Z.lt_succ_r. apply Z.lt_nge. intros Hge.
    assert (Hb : (inject_Z (Z.succ hi)
                  <= r * inject_Z (hi - lo + 1) + inject_Z lo)%Q).
    { eapply Qle_trans; [| apply Qfloor_le]. rewrite <- Zle_Qle. exact Hge. }
    replace (Z.succ hi) with ((hi - lo + 1) + lo) in Hb by lia.
    rewrite inject_Z_plus in Hb. nra.
Qed.

Lemma returns_Between (lo hi : Z) :
  lo <= hi -> returns (Between lo hi) (fun v => lo <= v <= hi).
Proof.
  intros Hle. unfold Between.
  eapply returns_bind; [apply returns_random |].
  intros r [H0 H1]. apply returns_ret. apply between_bounds; assumption.
Qed.

(** ** Layer operations, cell by cell *)

Lemma IsInLayerBounds_true tx ty L :
  Layer.IsInLayerBounds tx ty L = true <->
  0 <= tx < Layer.width L /\ 0 <= ty < Layer.height L.
Proof. unfold Layer.IsInLayerBounds. lia. Qed.

Lemma elem_of_GetTilesWithin tileX tileY w h L cx cy :
  (cx, cy) ∈ Layer.GetTilesWithin tileX tileY w h L <->
  inRect tileX tileY w h cx cy /\ Layer.IsInLayerBounds cx cy L = true.
Proof.
  unfold Layer.GetTilesWithin, inRect. rewrite IsInLayerBounds_true.
  rewrite list_elem_of_bind. split.
  - intros (ty & Hin & Hty). apply list_elem_of_bind in Hin.
    destruct Hin as (tx & Heq & Htx). apply list_elem_of_singleton in Heq.
    inversion Heq; subst tx ty; clear Heq.
    apply elem_of_seqZ in Hty, Htx.
    destruct (tileX <? 0) eqn:Ex, (tileY <? 0) eqn:Ey;
      repeat match goal with
             | H : context [if ?b then _ else _] |- _ => destruct b eqn:?
             end; lia.
  - intros ((Hx & Hy) & Hbx & Hby). exists cy. split.
    + apply list_elem_of_bind. exists cx. split; [apply list_elem_of_singleton; reflexivity |].
      apply elem_of_seqZ.
      destruct (tileX <? 0) eqn:Ex;
        repeat match goal with
               | |- context [if ?b then _ else _] => destruct b eqn:?
               end; lia.
    + apply elem_of_seqZ.
      destruct (tileY <? 0) eqn:Ey;
        repeat match goal with
               | |- context [if ?b then _ else _] => destruct b eqn:?
               end; lia.
Qed.

Lemma sameFrame_refl L : sameFrame L L.
Proof. repeat split. Qed.

Lemma sameFrame_trans L1 L2 L3 :
  sameFrame L1 L2 -> sameFrame L2 L3 -> sameFrame L1 L3.
Proof. unfold sameFrame. intuition congruence. Qed.

Lemma sameFrame_bounds L L' cx cy :
  sameFrame L L' ->
  Layer.IsInLayerBounds cx cy L' = Layer.IsInLayerBounds cx cy L.
Proof.
  intros (Hw & Hh & _). unfold Layer.IsInLayerBounds. rewrite Hw, Hh. reflexivity.
Qed.

Lemma setIndex_frame i c L : sameFrame L (Layer.setIndex i c L).
Proof. repeat split. Qed.

Lemma setIndex_lookup i c c' L :
  Layer.data (Layer.setIndex i c L) !! c' =
  if decide (c = c')
  then Some (Tile.mk i (Tile.collides (default Tile.blank (Layer.data L !! c))))
  else Layer.data L !! c'.
Proof. unfold Layer.setIndex. simpl. apply lookup_insert. Qed.

Lemma setIndex_noCollision i c L :
  noCollision L -> noCollision (Layer.setIndex i c L).
Proof.
  intros [Hci Hd]. split; [exact Hci |].
  intros c' t. rewrite setIndex_lookup. case_decide; [| apply Hd].
  intros [= <-]. simpl. destruct (Layer.data L !! c) as [t0|] eqn:E; simpl.
  - eapply Hd; eassumption.
  - reflexivity.
Qed.

Lemma putTileAt_frame i tx ty L : sameFrame L (Layer.putTileAt i tx ty L).
Proof. unfold Layer.putTileAt. destruct Layer.IsInLayerBounds; repeat split. Qed.

Lemma putTileAt_noCollision i tx ty L :
  noCollision L -> noCollision (Layer.putTileAt i tx ty L).
Proof.
  intros [Hci Hd]. unfold Layer.putTileAt.
  destruct Layer.IsInLayerBounds; [| split; assumption].
  split; [exact Hci |]. simpl. intros c t. rewrite lookup_insert.
  case_decide; [| apply Hd]. intros [= <-]. simpl. rewrite Hci.
  destruct (i =? -1); reflexivity.
Qed.

Lemma putTileAt_same i tx ty L :
  Layer.IsInLayerBounds tx ty L = true ->
  Layer.indexAt tx ty (Layer.putTileAt i tx ty L) = Some i.
Proof.
  intros Hb. unfold Layer.indexAt, Layer.tileAt, Layer.putTileAt.
  rewrite Hb. simpl. unfold Layer.IsInLayerBounds in *. simpl. rewrite Hb.
  simpl. rewrite lookup_insert_eq. reflexivity.
Qed.

Lemma putTileAt_other i tx ty L cx cy :
  (cx, cy) <> (tx, ty) ->
  Layer.tileAt cx cy (Layer.putTileAt i tx ty L) = Layer.tileAt cx cy L.
Proof.
  intros Hne. unfold Layer.tileAt, Layer.putTileAt.
  destruct (Layer.IsInLayerBounds tx ty L) eqn:Hb; [| reflexivity].
  unfold Layer.IsInLayerBounds. simpl.
  rewrite lookup_insert_ne by congruence. reflexivity.
Qed.

(** *** Weighted choice *)

Lemma pickWeighted_some (ws : list WeightedIndex) (rand sum : Q) :
  ws <> [] ->
  (rand <= fold_left (fun acc w => acc + weight w) ws sum)%Q ->
  exists c, Layer.pickWeighted rand sum ws = Some c /\ c ∈ map index ws.
Proof.
  revert sum. induction ws as [| w ws IH]; intros sum Hne Hle; [congruence |].
  simpl in *. destruct (Qle_bool rand (sum + weight w)) eqn:E.
  - exists (index w). split; [reflexivity | apply list_elem_of_here].
  - destruct ws as [| w' ws'].
    + simpl in Hle. apply Qle_bool_iff in Hle. congruence.
    + destruct (IH (sum + weight w)%Q) as (c & Hc & Hin); [congruence | exact Hle |].
      exists c. split; [exact Hc | apply list_elem_of_further; exact Hin].
Qed.

Lemma choice_in_alternatives (ws : list WeightedIndex) c i :
  c ∈ map index ws -> i ∈ choiceIndexes c -> i ∈ alternatives ws.
Proof.
  intros Hc Hi. unfold alternatives. apply list_elem_of_In, in_flat_map.
  apply list_elem_of_In, in_map_iff in Hc. destruct Hc as (w & <- & Hw).
  exists w. split; [exact Hw | apply list_elem_of_In; exact Hi].
Qed.

Lemma returns_randomIndex (ws : list WeightedIndex) :
  weighted_ok ws ->
  returns (Layer.randomIndex ws (weightTotal ws)) (fun i => i ∈ alternatives ws).
Proof.
  intros Hok. unfold Layer.randomIndex.
  eapply returns_bind; [apply returns_random |]. intros r [H0 H1].
  assert (Hne : ws <> []).
  { intros ->. unfold weighted_ok, weightTotal in Hok. simpl in Hok. lra. }
  destruct (pickWeighted_some ws (r * weightTotal ws)%Q 0%Q Hne) as (c & Hc & Hin).
  { unfold weighted_ok in Hok. fold (weightTotal ws). nra. }
  rewrite Hc. destruct c as [i | i rest].
  - apply returns_ret. eapply choice_in_alternatives; [exact Hin |].
    apply list_elem_of_here.
  - eapply returns_bind; [apply returns_random |]. intros r' [H0' H1'].
    apply returns_ret. eapply choice_in_alternatives; [exact Hin |].
    simpl choiceIndexes. apply list_elem_of_In, nth_In.
    pose proof (floor_scaled r' (Z.of_nat (length (i :: rest))) H0' H1') as Hk.
    simpl length in *. lia.
Qed.

Lemma returns_randomIndex_any (ws : list WeightedIndex) (total : Q) :
  returns (Layer.randomIndex ws total) (fun _ => True).
Proof.
  unfold Layer.randomIndex.
  eapply returns_bind; [apply returns_random |]. intros r _.
  destruct (Layer.pickWeighted (r * total) 0 ws) as [[i | i rest] |].
  - apply returns_ret. exact I.
  - eapply returns_bind; [apply returns_random |]. intros r' _.
    apply returns_ret. exact I.
  - apply returns_ret. exact I.
Qed.

Lemma returns_randomizeCells (ws : list WeightedIndex) (total : Q)
    (P : Z -> Prop) (cells : list (Z * Z)) (L : Layer.t) :
  returns (Layer.randomIndex ws total) P ->
  returns (Layer.randomizeCells ws total cells L) (filledWith P cells L).
Proof.
  intros Hidx. revert L. induction cells as [| c cells IH]; intros L; simpl.
  - apply returns_ret. split; [apply sameFrame_refl |].
    split; [auto |]. split; [| auto]. intros c Hc. inversion Hc.
  - eapply returns_bind; [exact Hidx |]. intros i Hi.
    eapply returns_weaken; [apply IH |].
    intros L' (Hf & Hnc & Hin & Hout).
    split; [eapply sameFrame_trans; [apply setIndex_frame | exact Hf] |].
    split; [intros H; apply Hnc, setIndex_noCollision, H |].
    split.
    + intros c0 Hc0. destruct (decide (c0 ∈ cells)) as [Hmem | Hmem];
        [apply Hin; exact Hmem |].
      apply elem_of_cons in Hc0. destruct Hc0 as [-> | ?]; [| contradiction].
      rewrite (Hout c Hmem), setIndex_lookup. rewrite decide_True by reflexivity.
      eexists. split; [reflexivity | exact Hi].
    + intros c0 Hc0. apply not_elem_of_cons in Hc0. destruct Hc0 as [Hne Hmem].
      rewrite (Hout c0 Hmem), setIndex_lookup. rewrite decide_False by congruence.
      reflexivity.
Qed.

Lemma filledWith_outside P tileX tileY w h L L' :
  filledWith P (Layer.GetTilesWithin tileX tileY w h L) L L' ->
  paintedOutside tileX tileY w h L L'.
Proof.
  intros (Hf & Hnc & _ & Hout). split; [exact Hf |]. split; [exact Hnc |].
  intros cx cy Hrect. unfold Layer.tileAt.
  rewrite (sameFrame_bounds _ _ _ _ Hf).
  destruct (Layer.IsInLayerBounds cx cy L) eqn:Hb; [| reflexivity].
  rewrite Hout; [reflexivity |].
  rewrite elem_of_GetTilesWithin. tauto.
Qed.

Lemma returns_weightedRandomize_outside ws tileX tileY w h L :
  returns (Layer.weightedRandomize ws tileX tileY w h L)
          (paintedOutside tileX tileY w h L).
Proof.
  unfold Layer.weightedRandomize. destruct (Qle_bool (weightTotal ws) 0).
  - apply returns_ret. split; [apply sameFrame_refl |]. split; auto.
  - eapply returns_weaken;
      [apply (returns_randomizeCells _ _ (fun _ => True)),
             returns_randomIndex_any |].
    intros L'. apply filledWith_outside.
Qed.

Lemma returns_weightedRandomize ws tileX tileY w h L :
  weighted_ok ws ->
  returns (Layer.weightedRandomize ws tileX tileY w h L)
    (fun L' =>
       paintedOutside tileX tileY w h L L' /\
       forall cx cy, inRect tileX tileY w h cx cy ->
         Layer.IsInLayerBounds cx cy L = true ->
         exists i, Layer.indexAt cx cy L' = Some i /\ i ∈ alternatives ws).
Proof.
  intros Hok. unfold Layer.weightedRandomize.
  destruct (Qle_bool (weightTotal ws) 0) eqn:E.
  { apply Qle_bool_iff in E. unfold weighted_ok in Hok. lra. }
  eapply returns_weaken;
    [apply (returns_randomizeCells _ _ (fun i => i ∈ alternatives ws)),
            returns_randomIndex, Hok |].
  intros L' HF. split; [eapply filledWith_outside; exact HF |].
  destruct HF as (Hf & _ & Hin & _). intros cx cy Hrect Hb.
  destruct (Hin (cx, cy)) as (t & Ht & Halt).
  { apply elem_of_GetTilesWithin. split; assumption. }
  exists (Tile.index t). split; [| exact Halt].
  unfold Layer.indexAt, Layer.tileAt.
  rewrite (sameFrame_bounds _ _ _ _ Hf), Hb, Ht. reflexivity.
Qed.

Lemma paintedOutside_index tileX tileY w h L L' cx cy :
  paintedOutside tileX tileY w h L L' ->
  ~ inRect tileX tileY w h cx cy ->
  Layer.indexAt cx cy L' = Layer.indexAt cx cy L.
Proof.
  intros (_ & _ & Hout) Hrect. unfold Layer.indexAt. rewrite Hout by exact Hrect.
  reflexivity.
Qed.

Lemma putTileAt_other_index i tx ty L cx cy :
  (cx, cy) <> (tx, ty) ->
  Layer.indexAt cx cy (Layer.putTileAt i tx ty L) = Layer.indexAt cx cy L.
Proof.
  intros Hne. unfold Layer.indexAt. rewrite putTileAt_other by exact Hne.
  reflexivity.
Qed.

Lemma paintedOutside_bounds tileX tileY w h L L' cx cy :
  paintedOutside tileX tileY w h L L' ->
  Layer.IsInLayerBounds cx cy L' = Layer.IsInLayerBounds cx cy L.
Proof. intros (Hf & _). apply sameFrame_bounds, Hf. Qed.

Lemma putTileAt_bounds i tx ty L cx cy :
  Layer.IsInLayerBounds cx cy (Layer.putTileAt i tx ty L) =
  Layer.IsInLayerBounds cx cy L.
Proof. apply sameFrame_bounds, putTileAt_frame. Qed.

Ltac skip_fill H :=
  rewrite (paintedOutside_index _ _ _ _ _ _ _ _ H)
    by (unfold inRect, Room.left, Room.right, Room.top, Room.bottom in *; lia).

Ltac skip_put :=
  rewrite putTileAt_other_index
    by (unfold inRect, Room.left, Room.right, Room.top, Room.bottom in *;
        intros [=]; lia).


(** C2. The door loop classifies a door from its local coordinates and the
    room's width and height alone, testing top (y = 0), then bottom
    (y = height-1), then left (x = 0), then right (x = width-1): the edge is
    the first of the conditions the door satisfies.  So a door at a corner
    (a top or bottom condition together with a left or right one) goes to
    top or bottom; in a room more than one cell wide, where left and right
    are different columns, that covers every door satisfying more than one
    condition.  The pattern of the edge is stamped one cell before the
    door's cell along the edge: at x-1 for top and bottom doors, at y-1 for
    left and right doors. *)
Theorem door_edge_and_anchor (T : TileMapping) (room : Room.t)
    (ground : Layer.t) (dx dy : Z) :
  let w := Room.width room in
  let h := Room.height room in
  doorEdge w h dx dy = head (edgeConditions w h dx dy) /\
  (onEdge w h dx dy EdgeTop || onEdge w h dx dy EdgeBottom = true ->
   onEdge w h dx dy EdgeLeft || onEdge w h dx dy EdgeRight = true ->
   doorEdge w h dx dy
   = Some (if onEdge w h dx dy EdgeTop then EdgeTop else EdgeBottom)) /\
  (1 < w -> (1 < length (edgeConditions w h dx dy))%nat ->
   doorEdge w h dx dy = Some EdgeTop \/ doorEdge w h dx dy = Some EdgeBottom) /\
  placeDoor T room ground (dx, dy) =
    match doorEdge w h dx dy with
    | Some e =>
        let a := oneBefore e (doorCell room (dx, dy)) in
        Layer.putTilesAt (doorTiles T e) a.1 a.2 ground
    | None => ground
    end.
Proof.
  intros w h. unfold doorEdge, edgeConditions, placeDoor, doorCell, onEdge.
  simpl. fold w h.
  destruct (dy =? 0) eqn:Et, (dy =? h - 1) eqn:Eb,
           (dx =? 0) eqn:El, (dx =? w - 1) eqn:Er;
    simpl; repeat split; auto; try discriminate; try (intros; lia).
Qed.

(** ** Start room, end room, prop rooms *)

Lemma swap_Permutation {A} (i j : nat) (l : list A) : swap i j l ≡ₚ l.
Proof.
  unfold swap. destruct (l !! i) as [a |] eqn:Ei; [| reflexivity].
  destruct (l !! j) as [b |] eqn:Ej; [| reflexivity].
  apply Permutation_insert_swap; assumption.
Qed.

Lemma returns_shuffleFrom {A} (i : nat) (l : list A) :
  returns (shuffleFrom i l) (fun l' => l' ≡ₚ l).
Proof.
  revert l. induction i as [| i IH]; intros l; simpl.
  - apply returns_ret. reflexivity.
  - eapply returns_bind; [apply returns_random |]. intros r _.
    eapply returns_weaken; [apply IH |]. intros l' Hl'. simpl in Hl'.
    rewrite Hl'. apply swap_Permutation.
Qed.

Lemma SpliceOne_Permutation {A} (l : list A) (k : nat) (e : A) :
  l !! k = Some e ->
  SpliceOne l k = (Some e, take k l ++ drop (S k) l) /\
  e :: take k l ++ drop (S k) l ≡ₚ l.
Proof.
  intros Hk. unfold SpliceOne. rewrite Hk. split; [reflexivity |].
  rewrite Permutation_middle, take_drop_middle by exact Hk. reflexivity.
Qed.

Lemma floor_nine_tenths (m : Z) :
  Qfloor (inject_Z m * (9 # 10)) = m * 9 / 10.
Proof. reflexivity. Qed.

(** The classification, step by step: the first room is shifted out, the
    room at the drawn index is spliced out, the rest is shuffled and its
    first nine tenths are kept. *)
Lemma separateRooms_shape (d : Dungeon.t) (g : Rng) (r0 : Room.t)
    (rest : list Room.t) :
  rng_ok g -> Dungeon.rooms d = r0 :: rest -> rest <> [] ->
  let q := Qfloor (draws g (cursor g) * inject_Z (Z.of_nat (length rest))) in
  exists e sh,
    0 <= q < Z.of_nat (length rest) /\
    rest !! Z.to_nat q = Some e /\
    sh ≡ₚ take (Z.to_nat q) rest ++ drop (S (Z.to_nat q)) rest /\
    (separateRooms d g).1 =
      mkSeparation (Some r0) (Some e) sh
        (take (Z.to_nat (Z.of_nat (length sh) * 9 / 10)) sh).
Proof.
  intros Hg Erooms Hne q.
  assert (Hrest : 0 < Z.of_nat (length rest)) by (destruct rest; simpl; [congruence | lia]).
  destruct (Hg (cursor g)) as [Hr0 Hr1].
  pose proof (floor_scaled _ _ Hr0 Hr1 Hrest) as Hk. fold q in Hk.
  destruct (lookup_lt_is_Some_2 rest (Z.to_nat q)) as [e He]; [lia |].
  destruct (SpliceOne_Permutation rest _ e He) as [Hsplice _].
  set (rest' := take (Z.to_nat q) rest ++ drop (S (Z.to_nat q)) rest) in *.
  set (g1 := mkRng (draws g) (S (cursor g))).
  assert (Hg1 : rng_ok g1) by exact Hg.
  destruct (returns_shuffleFrom (length rest' - 1) rest' g1 Hg1) as [Hsh _].
  fold (Shuffle rest') in Hsh.
  exists e, (Shuffle rest' g1).1.
  split; [exact Hk |]. split; [exact He |]. split; [exact Hsh |].
  unfold separateRooms. rewrite Erooms.
  cbv beta iota zeta delta
      [shift mbind mret rand_bind rand_ret RemoveRandomElement Math_random].
  rewrite Z.add_0_l. fold q. rewrite Hsplice. fold g1.
  destruct (Shuffle rest' g1) as [sh g2]. simpl.
  unfold slice0. rewrite floor_nine_tenths. reflexivity.
Qed.

(** Start room, end room and the shuffled rest are the generated rooms, and
    the prop rooms are a prefix of the rest. *)
Lemma separateRooms_partition (d : Dungeon.t) (g : Rng) :
  rng_ok g -> (2 <= length (Dungeon.rooms d))%nat ->
  let sep := (separateRooms d g).1 in
  exists st e n,
    startRoom sep = Some st /\ endRoom sep = Some e /\
    e ∈ Dungeon.rooms d /\
    otherRooms sep = take n (rooms sep) /\
    st :: e :: rooms sep ≡ₚ Dungeon.rooms d.
Proof.
  intros Hg HN sep.
  destruct (Dungeon.rooms d) as [| r0 rest] eqn:Erooms; [simpl in HN; lia |].
  assert (Hne : rest <> []) by (intros ->; simpl in HN; lia).
  destruct (separateRooms_shape d g r0 rest Hg Erooms Hne)
    as (e & sh & _ & He & Hsh & Esep).
  destruct (SpliceOne_Permutation rest _ e He) as [_ Hperm].
  exists r0, e, (Z.to_nat (Z.of_nat (length sh) * 9 / 10)).
  unfold sep. rewrite Esep. simpl. repeat split.
  - apply list_elem_of_further. eapply list_elem_of_lookup_2. exact He.
  - rewrite Hsh. apply perm_skip. exact Hperm.
Qed.


(** ** Pattern stamps *)

Lemma putRow_snoc n row tileX y L :
  Layer.putRow (S n) row tileX y L =
  match row !! n with
  | Some i => Layer.putTileAt i (tileX + Z.of_nat n) y (Layer.putRow n row tileX y L)
  | None => Layer.putRow n row tileX y L
  end.
Proof. unfold Layer.putRow. rewrite seq_S, fold_left_app. reflexivity. Qed.

Lemma putRow_frame n row tileX y L :
  sameFrame L (Layer.putRow n row tileX y L) /\
  (noCollision L -> noCollision (Layer.putRow n row tileX y L)).
Proof.
  induction n as [| n [IHf IHc]]; [split; [apply sameFrame_refl | auto] |].
  rewrite putRow_snoc. destruct (row !! n); [| split; assumption].
  split.
  - eapply sameFrame_trans; [exact IHf | apply putTileAt_frame].
  - intros H. apply putTileAt_noCollision, IHc, H.
Qed.

Lemma putRow_other n row tileX y L cx cy :
  cy <> y \/ cx < tileX \/ tileX + Z.of_nat n <= cx ->
  Layer.tileAt cx cy (Layer.putRow n row tileX y L) = Layer.tileAt cx cy L.
Proof.
  induction n as [| n IH]; intros Hout; [reflexivity |].
  rewrite putRow_snoc. destruct (row !! n).
  - rewrite putTileAt_other by (intros [=]; lia). apply IH. lia.
  - apply IH. lia.
Qed.

Lemma putRow_same n row tileX y L (k : nat) i :
  (k < n)%nat -> row !! k = Some i ->
  Layer.IsInLayerBounds (tileX + Z.of_nat k) y L = true ->
  Layer.indexAt (tileX + Z.of_nat k) y (Layer.putRow n row tileX y L) = Some i.
Proof.
  induction n as [| n IH]; intros Hk Hrow Hb; [lia |].
  rewrite putRow_snoc. destruct (decide (k = n)) as [-> | Hne].
  - rewrite Hrow. apply putTileAt_same.
    rewrite (sameFrame_bounds _ _ _ _ (proj1 (putRow_frame n row tileX y L))).
    exact Hb.
  - destruct (row !! n).
    + rewrite putTileAt_other_index by (intros [=]; lia). apply IH; [lia | assumption..].
    + apply IH; [lia | assumption..].
Qed.

Lemma putRows_frame n rows tileX y L :
  sameFrame L (Layer.putRows n rows tileX y L) /\
  (noCollision L -> noCollision (Layer.putRows n rows tileX y L)).
Proof.
  revert y L. induction rows as [| row rows IH]; intros y L; simpl.
  - split; [apply sameFrame_refl | auto].
  - destruct (IH (y + 1) (Layer.putRow n row tileX y L)) as [Hf Hc].
    destruct (putRow_frame n row tileX y L) as [Hf' Hc'].
    split; [eapply sameFrame_trans; eassumption | auto].
Qed.

Lemma putRows_other n rows tileX y L cx cy :
  cx < tileX \/ tileX + Z.of_nat n <= cx \/
  cy < y \/ y + Z.of_nat (length rows) <= cy ->
  Layer.tileAt cx cy (Layer.putRows n rows tileX y L) = Layer.tileAt cx cy L.
Proof.
  revert y L. induction rows as [| row rows IH]; intros y L Hout; simpl;
    [reflexivity |].
  rewrite IH by (simpl length in Hout; lia).
  apply putRow_other. simpl length in Hout. lia.
Qed.

Lemma putRows_same n rows tileX y L (k j : nat) row i :
  rows !! j = Some row -> (k < n)%nat -> row !! k = Some i ->
  Layer.IsInLayerBounds (tileX + Z.of_nat k) (y + Z.of_nat j) L = true ->
  Layer.indexAt (tileX + Z.of_nat k) (y + Z.of_nat j)
                (Layer.putRows n rows tileX y L) = Some i.
Proof.
  revert y L j. induction rows as [| row0 rows IH]; intros y L j Hj Hk Hrow Hb;
    [discriminate |].
  simpl. destruct j as [| j].
  - injection Hj as ->. rewrite Z.add_0_r in *.
    unfold Layer.indexAt. rewrite putRows_other by lia.
    apply putRow_same; assumption.
  - simpl in Hj. replace (y + Z.of_nat (S j)) with (y + 1 + Z.of_nat j) in * by lia.
    eapply IH; try eassumption.
    rewrite (sameFrame_bounds _ _ _ _ (proj1 (putRow_frame n row0 tileX y L))).
    exact Hb.
Qed.

Lemma putTilesAt_frame a tileX tileY L :
  sameFrame L (Layer.putTilesAt a tileX tileY L) /\
  (noCollision L -> noCollision (Layer.putTilesAt a tileX tileY L)).
Proof. apply putRows_frame. Qed.

Lemma putTilesAt_other a tileX tileY L cx cy :
  cx < tileX \/ tileX + Z.of_nat (patWidth a) <= cx \/
  cy < tileY \/ tileY + Z.of_nat (patHeight a) <= cy ->
  Layer.tileAt cx cy (Layer.putTilesAt a tileX tileY L) = Layer.tileAt cx cy L.
Proof. apply putRows_other. Qed.

Lemma putTilesAt_same a tileX tileY L (k j : nat) i :
  patternAt a k j = Some i ->
  Layer.IsInLayerBounds (tileX + Z.of_nat k) (tileY + Z.of_nat j) L = true ->
  Layer.indexAt (tileX + Z.of_nat k) (tileY + Z.of_nat j)
                (Layer.putTilesAt a tileX tileY L) = Some i.
Proof.
  unfold patternAt. destruct (Layer.toGrid a !! j) as [row |] eqn:Ej; [| discriminate].
  case_decide; [| discriminate]. intros Hrow Hb.
  eapply putRows_same; eassumption.
Qed.


Lemma returns_pot T room stuff :
  5 <= Room.width room -> 5 <= Room.height room ->
  returns
    (x ← Between (Room.left room + 2) (Room.right room - 2);
     y ← Between (Room.top room + 2) (Room.bottom room - 2);
     Layer.weightedRandomize (POT T) x y 1 1 stuff)
    (potPlaced T room stuff).
Proof.
  intros Hw Hh.
  eapply returns_bind;
    [apply returns_Between; unfold Room.left, Room.right; lia |].
  intros px Hpx.
  eapply returns_bind;
    [apply returns_Between; unfold Room.top, Room.bottom; lia |].
  intros py Hpy.
  assert (Hcell : forall cx cy, (cx, cy) <> (px, py) -> ~ inRect px py 1 1 cx cy).
  { intros cx cy Hne [Hx Hy]. apply Hne. f_equal; lia. }
  destruct (Qlt_le_dec 0 (weightTotal (POT T))) as [Hok | Hno].
  - eapply returns_weaken; [apply returns_weightedRandomize, Hok |].
    intros L' [(Hf & Hc & Hout) Hin]. exists px, py.
    split; [exact Hpx |]. split; [exact Hpy |]. split.
    + intros _ Hb. apply Hin; [unfold inRect; lia | exact Hb].
    + intros cx cy Hne. apply Hout, Hcell, Hne.
  - eapply returns_weaken; [apply returns_weightedRandomize_outside |].
    intros L' (Hf & Hc & Hout). exists px, py.
    split; [exact Hpx |]. split; [exact Hpy |]. split.
    + intros Hok. unfold weighted_ok in Hok. lra.
    + intros cx cy Hne. apply Hout, Hcell, Hne.
Qed.

Lemma stampAll_frame a anchors L :
  sameFrame L (stampAll a anchors L) /\
  (noCollision L -> noCollision (stampAll a anchors L)).
Proof.
  revert L. induction anchors as [| p ps IH]; intros L; simpl.
  - split; [apply sameFrame_refl | auto].
  - destruct (IH (Layer.putTilesAt a p.1 p.2 L)) as [Hf Hc].
    destruct (putTilesAt_frame a p.1 p.2 L) as [Hf' Hc'].
    split; [eapply sameFrame_trans; eassumption | auto].
Qed.

(** A cell outside every stamp keeps its tile. *)
Lemma stampAll_other a anchors L cx cy :
  Forall (fun p => cx < p.1 \/ p.1 + Z.of_nat (patWidth a) <= cx \/
                   cy < p.2 \/ p.2 + Z.of_nat (patHeight a) <= cy) anchors ->
  Layer.tileAt cx cy (stampAll a anchors L) = Layer.tileAt cx cy L.
Proof.
  revert L. induction anchors as [| p ps IH]; intros L Hall; [reflexivity |].
  apply Forall_cons in Hall. destruct Hall as [Hp Hps]. simpl.
  rewrite IH by exact Hps. apply putTilesAt_other, Hp.
Qed.



(** ** What painting never changes *)

Lemma kept_refl L : kept L L.
Proof. split; [apply sameFrame_refl | auto]. Qed.

Lemma kept_trans L1 L2 L3 : kept L1 L2 -> kept L2 L3 -> kept L1 L3.
Proof.
  intros [Hf1 Hc1] [Hf2 Hc2]. split; [eapply sameFrame_trans; eassumption | auto].
Qed.

Lemma kept_putTileAt i tx ty L : kept L (Layer.putTileAt i tx ty L).
Proof. split; [apply putTileAt_frame | apply putTileAt_noCollision]. Qed.

Lemma kept_putTilesAt a tx ty L : kept L (Layer.putTilesAt a tx ty L).
Proof. apply putTilesAt_frame. Qed.

Lemma kept_stampAll a anchors L : kept L (stampAll a anchors L).
Proof. apply stampAll_frame. Qed.

Lemma paintedOutside_kept tileX tileY w h L L' :
  paintedOutside tileX tileY w h L L' -> kept L L'.
Proof. intros (Hf & Hc & _). split; assumption. Qed.

Lemma returns_weightedRandomize_kept ws tileX tileY w h L :
  returns (Layer.weightedRandomize ws tileX tileY w h L) (kept L).
Proof.
  eapply returns_weaken; [apply returns_weightedRandomize_outside |].
  intros L'. apply paintedOutside_kept.
Qed.

Lemma createBlankLayer_noCollision w h :
  noCollision (Layer.createBlankLayer w h).
Proof.
  split; [reflexivity |]. intros c t Hc. simpl in Hc.
  rewrite lookup_empty in Hc. discriminate.
Qed.

Lemma fill_kept i L : kept L (Layer.fill i L).
Proof.
  unfold Layer.fill.
  generalize (Layer.GetTilesWithin 0 0 (Layer.width L) (Layer.height L) L).
  intros cells.
  assert (Hgen : forall L0, Layer.collideIndexes L0 = Layer.collideIndexes L ->
    kept L0 (fold_left
      (fun L' p => Layer.setData
         (<[p := Tile.mk i (Layer.hasIndex i (Layer.collideIndexes L))]>
            (Layer.data L')) L') cells L0)).
  { induction cells as [| c cells IH]; intros L0 Hci; simpl; [apply kept_refl |].
    eapply kept_trans; [| apply IH; exact Hci].
    split; [repeat split |]. intros [Hnil Hd]. split; [exact Hnil |].
    simpl. intros c' t. rewrite lookup_insert. case_decide; [| apply Hd].
    intros [= <-]. simpl. rewrite <- Hci, Hnil. reflexivity. }
  apply Hgen. reflexivity.
Qed.

Lemma placeDoor_kept T room L door : kept L (placeDoor T room L door).
Proof.
  unfold placeDoor. destruct door as [dx dy].
  repeat match goal with
         | |- context [if ?b then _ else _] => destruct b
         end; try apply kept_putTilesAt. apply kept_refl.
Qed.

Lemma placeDoors_kept T room L : kept L (placeDoors T room L).
Proof.
  unfold placeDoors. generalize (Room.getDoorLocations room). intros ds.
  revert L. induction ds as [| d ds IH]; intros L; simpl; [apply kept_refl |].
  eapply kept_trans; [apply placeDoor_kept | apply IH].
Qed.

Lemma returns_placeFloorAndWalls_kept T room L :
  returns (placeFloorAndWalls T room L) (kept L).
Proof.
  unfold placeFloorAndWalls.
  eapply returns_bind; [apply returns_weightedRandomize_kept |]. intros L1 K1.
  cbv zeta.
  eapply returns_bind; [apply returns_weightedRandomize_kept |]. intros L6 K6.
  eapply returns_bind; [apply returns_weightedRandomize_kept |]. intros L7 K7.
  eapply returns_bind; [apply returns_weightedRandomize_kept |]. intros L8 K8.
  eapply returns_weaken; [apply returns_weightedRandomize_kept |]. intros L9 K9.
  repeat (eapply kept_trans; [| eassumption]).
  eapply kept_trans; [exact K1 |].
  repeat (eapply kept_trans; [| apply kept_putTileAt]). apply kept_refl.
Qed.

Lemma returns_paintRooms_kept T rooms L :
  returns (paintRooms T rooms L) (kept L).
Proof.
  revert L. induction rooms as [| room rooms IH]; intros L; simpl.
  - apply returns_ret, kept_refl.
  - unfold paintRoom.
    eapply returns_bind.
    + eapply returns_bind; [apply returns_placeFloorAndWalls_kept |].
      intros L1 K1. apply returns_ret.
      exact (kept_trans _ _ _ K1 (placeDoors_kept T room L1)).
    + intros L2 K2. eapply returns_weaken; [apply IH |].
      intros L3 K3. exact (kept_trans _ _ _ K2 K3).
Qed.

(** ** Collision by exclusion *)

Lemma tileAt_cellTile cx cy L :
  Layer.tileAt cx cy L =
  if Layer.IsInLayerBounds cx cy L then Some (cellTile L (cx, cy)) else None.
Proof. reflexivity. Qed.

Lemma excludeStep_cell indexes L c0 c :
  cellTile (Layer.excludeStep indexes L c0) c =
  if bool_decide (c0 = c) && negb (Layer.hasIndex (Tile.index (cellTile L c)) indexes)
  then Tile.mk (Tile.index (cellTile L c)) true
  else cellTile L c.
Proof.
  unfold Layer.excludeStep. fold (cellTile L c0).
  destruct (bool_decide (c0 = c)) eqn:E.
  - apply bool_decide_eq_true in E. subst c0.
    destruct (Layer.hasIndex (Tile.index (cellTile L c)) indexes); simpl; [reflexivity |].
    unfold cellTile at 1. simpl. rewrite lookup_insert_eq. reflexivity.
  - apply bool_decide_eq_false in E. simpl.
    destruct (Layer.hasIndex (Tile.index (cellTile L c0)) indexes); [reflexivity |].
    unfold cellTile at 1. simpl. rewrite lookup_insert_ne by exact E. reflexivity.
Qed.

Lemma excludeStep_size indexes L c0 :
  Layer.width (Layer.excludeStep indexes L c0) = Layer.width L /\
  Layer.height (Layer.excludeStep indexes L c0) = Layer.height L /\
  Layer.callbacks (Layer.excludeStep indexes L c0) = Layer.callbacks L.
Proof.
  unfold Layer.excludeStep. destruct Layer.hasIndex; repeat split.
Qed.

Lemma fold_excludeStep indexes cells L :
  excluded indexes cells L (fold_left (Layer.excludeStep indexes) cells L).
Proof.
  revert L. induction cells as [| c0 cells IH]; intros L; simpl.
  - repeat split; auto. intros c Hc. inversion Hc.
  - destruct (IH (Layer.excludeStep indexes L c0))
      as (Hw & Hh & Hcb & Hidx & Hkeep & Hmono & Hset).
    destruct (excludeStep_size indexes L c0) as (Hw0 & Hh0 & Hcb0).
    assert (Hidx0 : forall c, Tile.index (cellTile (Layer.excludeStep indexes L c0) c)
                              = Tile.index (cellTile L c)).
    { intros c. rewrite excludeStep_cell. destruct (_ && _); reflexivity. }
    split; [congruence |]. split; [congruence |]. split; [congruence |].
    split; [intros c; rewrite Hidx; apply Hidx0 |].
    split; [| split].
    + intros c Hc. rewrite Hkeep by (rewrite Hidx0; exact Hc).
      rewrite excludeStep_cell, Hc, andb_false_r. reflexivity.
    + intros c Hc. apply Hmono. rewrite excludeStep_cell.
      destruct (_ && _); [reflexivity | exact Hc].
    + intros c Hin Hc. apply elem_of_cons in Hin. destruct Hin as [-> | Hin].
      * apply Hmono. rewrite excludeStep_cell, Hc.
        rewrite bool_decide_eq_true_2 by reflexivity. reflexivity.
      * apply Hset; [exact Hin | rewrite Hidx0; exact Hc].
Qed.

(** On a layer without colliding tiles, exclusion makes a cell of the grid
    collide exactly when its index is not listed, and changes no index. *)
Lemma setCollisionByExclusion_cell indexes L cx cy :
  noCollision L -> Layer.IsInLayerBounds cx cy L = true ->
  exists t,
    Layer.tileAt cx cy (Layer.setCollisionByExclusion indexes L) = Some t /\
    Layer.indexAt cx cy L = Some (Tile.index t) /\
    Tile.collides t = negb (Layer.hasIndex (Tile.index t) indexes).
Proof.
  intros [_ Hnc] Hb. unfold Layer.setCollisionByExclusion.
  destruct (fold_excludeStep indexes
              (Layer.GetTilesWithin 0 0 (Layer.width L) (Layer.height L) L) L)
    as (Hw & Hh & _ & Hidx & Hkeep & _ & Hset).
  set (L' := fold_left _ _ L) in *.
  assert (Hb' : Layer.IsInLayerBounds cx cy L' = true).
  { unfold Layer.IsInLayerBounds in *. rewrite Hw, Hh. exact Hb. }
  assert (Hno : Tile.collides (cellTile L (cx, cy)) = false).
  { unfold cellTile. destruct (Layer.data L !! (cx, cy)) eqn:E; simpl;
      [eapply Hnc; eassumption | reflexivity]. }
  exists (cellTile L' (cx, cy)). rewrite tileAt_cellTile, Hb'. split; [reflexivity |].
  unfold Layer.indexAt. rewrite tileAt_cellTile, Hb. simpl. rewrite Hidx.
  split; [reflexivity |].
  destruct (Layer.hasIndex (Tile.index (cellTile L (cx, cy))) indexes) eqn:E; simpl.
  - rewrite Hkeep by exact E. exact Hno.
  - apply Hset; [| exact E]. apply elem_of_GetTilesWithin. split; [| exact Hb].
    apply IsInLayerBounds_true in Hb. unfold inRect. lia.
Qed.

Lemma setCollisionByExclusion_index indexes L cx cy :
  Layer.indexAt cx cy (Layer.setCollisionByExclusion indexes L) =
  Layer.indexAt cx cy L.
Proof.
  unfold Layer.setCollisionByExclusion.
  destruct (fold_excludeStep indexes
              (Layer.GetTilesWithin 0 0 (Layer.width L) (Layer.height L) L) L)
    as (Hw & Hh & _ & Hidx & _).
  set (L' := fold_left _ _ L) in *.
  unfold Layer.indexAt. rewrite !tileAt_cellTile.
  replace (Layer.IsInLayerBounds cx cy L') with (Layer.IsInLayerBounds cx cy L)
    by (unfold Layer.IsInLayerBounds; rewrite Hw, Hh; reflexivity).
  destruct (Layer.IsInLayerBounds cx cy L); [| reflexivity]. simpl.
  rewrite Hidx. reflexivity.
Qed.

(** ** The stages of [create] *)

Lemma rng_ok_paintStage T d g : rng_ok g -> rng_ok (paintStage T d g).2.
Proof. intros Hg. apply (returns_paintRooms_kept T _ _ g Hg). Qed.

Lemma returns_separateRooms d :
  returns (separateRooms d) (fun _ => True).
Proof.
  unfold separateRooms. destruct (shift (Dungeon.rooms d)) as [st rs].
  apply (returns_bind _ _ (fun _ => True)).
  - unfold RemoveRandomElement. eapply returns_bind; [apply returns_random |].
    intros r _. apply returns_ret. exact I.
  - intros [e rs'] _. eapply returns_bind; [apply returns_shuffleFrom |].
    intros sh _. apply returns_ret. exact I.
Qed.

Lemma rng_ok_separateStage T d g : rng_ok g -> rng_ok (separateStage T d g).2.
Proof.
  intros Hg. apply (returns_separateRooms d _ (rng_ok_paintStage T d g Hg)).
Qed.

Lemma create_stages (T : TileMapping) (Player : Type)
    (newPlayer : Z -> Z -> Player) (d : Dungeon.t) (s : Scene Player) (g : Rng) :
  rng_ok g -> (2 <= length (Dungeon.rooms d))%nat ->
  exists st e,
    startRoom (separateStage T d g).1 = Some st /\
    endRoom (separateStage T d g).1 = Some e /\
    (create T Player newPlayer d s g).1 =
      Some (mkScene Player
              (newPlayer (Room.centerX st * 48) (Room.centerY st * 48)) d
              (Layer.setCollisionByExclusion walkable (paintStage T d g).1)
              (Layer.setTileIndexCallback (STAIRS T) ReachedStairs
                 (Layer.setCollisionByExclusion walkable (stuffStage T d g e).1))
              (level Player s + 1) false
              (TilemapVisibility.new (blankGround T d))
              (hostEffects Player s)).
Proof.
  intros Hg HN.
  destruct (separateRooms_partition d _ (rng_ok_paintStage T d g Hg) HN)
    as (st & e & n & Hst & He & _).
  fold (separateStage T d g) in Hst, He.
  exists st, e. split; [exact Hst |]. split; [exact He |].
  unfold create. cbv beta zeta delta [mbind rand_bind].
  fold (blankGround T d) (blankStuff d). fold (paintStage T d g).
  unfold stuffStage, separateStage in *.
  destruct (paintStage T d g) as [ground1 g1]. simpl in Hst, He |- *.
  destruct (separateRooms d g1) as [sep g2]. simpl in Hst, He |- *.
  rewrite Hst, He.
  destruct (placeAllStuff T (otherRooms sep) _ g2) as [stuff2 g3].
  reflexivity.
Qed.

(** ** Where props land *)

Lemma returns_Between_any lo hi : returns (Between lo hi) (fun _ => True).
Proof.
  unfold Between. eapply returns_bind; [apply returns_random |].
  intros r _. apply returns_ret. exact I.
Qed.

Lemma placeStuff_towers T room stuff :
  (if 9 <=? Room.height room then
     mret (M := Rand)
       (Layer.putTilesAt (TOWER T) (Room.centerX room + 1) (Room.centerY room - 2)
          (Layer.putTilesAt (TOWER T) (Room.centerX room - 1) (Room.centerY room - 2)
             (Layer.putTilesAt (TOWER T) (Room.centerX room + 1) (Room.centerY room + 1)
                (Layer.putTilesAt (TOWER T) (Room.centerX room - 1)
                   (Room.centerY room + 1) stuff))))
   else
     mret (M := Rand)
       (Layer.putTilesAt (TOWER T) (Room.centerX room + 1) (Room.centerY room - 1)
          (Layer.putTilesAt (TOWER T) (Room.centerX room - 1)
             (Room.centerY room - 1) stuff)))
  = mret (stampAll (TOWER T) (towerAnchors room) stuff).
Proof. unfold towerAnchors. destruct (9 <=? Room.height room); reflexivity. Qed.

Lemma returns_placeStuff_kept T stuff room :
  returns (placeStuff T stuff room) (kept stuff).
Proof.
  unfold placeStuff. eapply returns_bind; [apply returns_random |]. intros r _.
  destruct (Qle_bool r (1 # 4)); [apply returns_ret, kept_putTileAt |].
  destruct (Qle_bool r (1 # 2)).
  - apply (returns_bind _ _ (fun _ => True)); [apply returns_Between_any |].
    intros px _.
    apply (returns_bind _ _ (fun _ => True)); [apply returns_Between_any |].
    intros py _. apply returns_weightedRandomize_kept.
  - cbv zeta. rewrite placeStuff_towers. apply returns_ret, kept_stampAll.
Qed.

Lemma covers_false room cx cy :
  Room.covers room cx cy = false <->
  cx < Room.x room \/ Room.x room + Room.width room <= cx \/
  cy < Room.y room \/ Room.y room + Room.height room <= cy.
Proof.
  unfold Room.covers, Room.left, Room.right, Room.top, Room.bottom.
  rewrite !andb_false_iff, !Z.leb_gt. lia.
Qed.

Lemma returns_placeStuff_inside T stuff room :
  towerFits T -> 7 <= Room.width room -> 7 <= Room.height room ->
  returns (placeStuff T stuff room)
    (fun L' => forall cx cy, Room.covers room cx cy = false ->
       Layer.tileAt cx cy L' = Layer.tileAt cx cy stuff).
Proof.
  intros [Hpw Hph] Hw Hh.
  assert (Hcx : Room.x room + 3 <= Room.centerX room
                /\ Room.centerX room + 3 <= Room.x room + Room.width room - 1).
  { unfold Room.centerX.
    pose proof (Z.div_mod (Room.width room) 2 ltac:(lia)).
    pose proof (Z.mod_pos_bound (Room.width room) 2 ltac:(lia)). lia. }
  assert (Hcy : Room.y room + 3 <= Room.centerY room
                /\ Room.centerY room + 3 <= Room.y room + Room.height room - 1).
  { unfold Room.centerY.
    pose proof (Z.div_mod (Room.height room) 2 ltac:(lia)).
    pose proof (Z.mod_pos_bound (Room.height room) 2 ltac:(lia)). lia. }
  assert (Hcy9 : 9 <= Room.height room ->
                 Room.centerY room + 4 <= Room.y room + Room.height room - 1).
  { intros H9. unfold Room.centerY.
    pose proof (Z.div_mod (Room.height room) 2 ltac:(lia)).
    pose proof (Z.mod_pos_bound (Room.height room) 2 ltac:(lia)). lia. }
  unfold placeStuff. eapply returns_bind; [apply returns_random |]. intros r _.
  destruct (Qle_bool r (1 # 4)).
  { apply returns_ret. intros cx cy Hout. apply putTileAt_other.
    apply covers_false in Hout. intros [=]. lia. }
  destruct (Qle_bool r (1 # 2)).
  - eapply returns_weaken; [apply returns_pot; lia |].
    intros L' (px & py & Hpx & Hpy & _ & Hframe) cx cy Hout.
    apply Hframe. apply covers_false in Hout.
    unfold Room.left, Room.right, Room.top, Room.bottom in *.
    intros [=]. lia.
  - cbv zeta. rewrite placeStuff_towers. apply returns_ret.
    intros cx cy Hout. apply covers_false in Hout. apply stampAll_other.
    unfold towerAnchors. destruct (9 <=? Room.height room) eqn:E9.
    + apply Z.leb_le in E9. specialize (Hcy9 E9).
      repeat (apply Forall_cons; split; [simpl; lia |]). constructor.
    + repeat (apply Forall_cons; split; [simpl; lia |]). constructor.
Qed.

Lemma returns_placeAllStuff_kept T rooms stuff :
  returns (placeAllStuff T rooms stuff) (kept stuff).
Proof.
  revert stuff. induction rooms as [| room rooms IH]; intros stuff; simpl.
  - apply returns_ret, kept_refl.
  - eapply returns_bind; [apply returns_placeStuff_kept |]. intros L1 K1.
    eapply returns_weaken; [apply IH |]. intros L2 K2.
    exact (kept_trans _ _ _ K1 K2).
Qed.

Lemma returns_placeAllStuff_inside T rooms stuff :
  towerFits T ->
  Forall (fun room => 7 <= Room.width room /\ 7 <= Room.height room) rooms ->
  returns (placeAllStuff T rooms stuff)
    (fun L' => forall cx cy,
       Forall (fun room => Room.covers room cx cy = false) rooms ->
       Layer.tileAt cx cy L' = Layer.tileAt cx cy stuff).
Proof.
  intros Hfit. revert stuff.
  induction rooms as [| room rooms IH]; intros stuff Hsize; simpl.
  - apply returns_ret. reflexivity.
  - apply Forall_cons in Hsize. destruct Hsize as [[Hw Hh] Hsize].
    eapply returns_bind; [apply returns_placeStuff_inside; assumption |].
    intros L1 H1. eapply returns_weaken; [apply IH, Hsize |].
    intros L2 H2 cx cy Hall. apply Forall_cons in Hall. destruct Hall as [Hr Hrs].
    rewrite H2 by exact Hrs. apply H1, Hr.
Qed.

(** ** The end room *)

Lemma roomsApart_sym a b : roomsApart a b -> roomsApart b a.
Proof. unfold roomsApart. tauto. Qed.

Lemma pairwiseApart_Permutation rs rs' :
  rs ≡ₚ rs' -> pairwiseApart rs -> pairwiseApart rs'.
Proof.
  induction 1 as [| x l l' Hp IH | x y l | l l' l'' Hp1 IH1 Hp2 IH2]; simpl.
  - auto.
  - intros [Hx Hl]. split; [rewrite <- Hp; exact Hx | apply IH, Hl].
  - intros [Hy [Hx Hl]]. apply Forall_cons in Hy. destruct Hy as [Hyx Hy].
    split; [| split; assumption].
    apply Forall_cons. split; [apply roomsApart_sym, Hyx | exact Hx].
  - auto.
Qed.

Lemma roomsApart_covers a b cx cy :
  roomsApart a b -> 0 < Room.width a -> 0 < Room.height a ->
  Room.covers a cx cy = true -> Room.covers b cx cy = false.
Proof.
  unfold roomsApart, Room.covers. intros Hap Hw Hh Hc.
  apply andb_true_iff in Hc. destruct Hc as [Hc Hc4].
  apply andb_true_iff in Hc. destruct Hc as [Hc Hc3].
  apply andb_true_iff in Hc. destruct Hc as [Hc1 Hc2].
  rewrite !andb_false_iff, !Z.leb_gt. lia.
Qed.

Lemma setTileIndexCallback_indexAt i cb L cx cy :
  Layer.indexAt cx cy (Layer.setTileIndexCallback i cb L) = Layer.indexAt cx cy L.
Proof. reflexivity. Qed.


Lemma setCollisionByExclusion_bounds indexes L cx cy :
  Layer.IsInLayerBounds cx cy (Layer.setCollisionByExclusion indexes L) =
  Layer.IsInLayerBounds cx cy L.
Proof.
  unfold Layer.setCollisionByExclusion.
  destruct (fold_excludeStep indexes
              (Layer.GetTilesWithin 0 0 (Layer.width L) (Layer.height L) L) L)
    as (Hw & Hh & _).
  unfold Layer.IsInLayerBounds. rewrite Hw, Hh. reflexivity.
Qed.

Lemma noCollision_paintStage T d g : rng_ok g -> noCollision (paintStage T d g).1.
Proof.
  intros Hg. destruct (returns_paintRooms_kept T (Dungeon.rooms d) (blankGround T d) g Hg)
    as [[_ Hnc] _].
  apply Hnc. apply (fill_kept (BLANK T)), createBlankLayer_noCollision.
Qed.

Lemma noCollision_stuffStage T d g e : rng_ok g -> noCollision (stuffStage T d g e).1.
Proof.
  intros Hg.
  destruct (returns_placeAllStuff_kept T (otherRooms (separateStage T d g).1)
              (Layer.putTileAt (STAIRS T) (Room.centerX e) (Room.centerY e)
                               (blankStuff d))
              _ (rng_ok_separateStage T d g Hg)) as [[_ Hnc] _].
  apply Hnc, putTileAt_noCollision, createBlankLayer_noCollision.
Qed.

Lemma bounds_paintStage T d g cx cy :
  rng_ok g ->
  Layer.IsInLayerBounds cx cy (paintStage T d g).1 =
  Layer.IsInLayerBounds cx cy (blankStuff d).
Proof.
  intros Hg.
  destruct (returns_paintRooms_kept T (Dungeon.rooms d) (blankGround T d) g Hg)
    as [[Hf _] _].
  fold (paintStage T d g) in Hf. rewrite (sameFrame_bounds _ _ _ _ Hf).
  apply sameFrame_bounds, (fill_kept (BLANK T)).
Qed.

Lemma bounds_stuffStage T d g e cx cy :
  rng_ok g ->
  Layer.IsInLayerBounds cx cy (stuffStage T d g e).1 =
  Layer.IsInLayerBounds cx cy (blankStuff d).
Proof.
  intros Hg.
  destruct (returns_placeAllStuff_kept T (otherRooms (separateStage T d g).1)
              (Layer.putTileAt (STAIRS T) (Room.centerX e) (Room.centerY e)
                               (blankStuff d))
              _ (rng_ok_separateStage T d g Hg)) as [[Hf _] _].
  fold (stuffStage T d g e) in Hf. rewrite (sameFrame_bounds _ _ _ _ Hf).
  apply putTileAt_bounds.
Qed.

(** C6. After [create], on the ground layer and on the stuff layer alike,
    the tile of every cell of the grid collides exactly when its index is
    not one of -1, 6, 7, 8, 26. *)
Theorem collision_by_exclusion (T : TileMapping) (Player : Type)
    (newPlayer : Z -> Z -> Player) (d : Dungeon.t) (s : Scene Player) (g : Rng) :
  rng_ok g ->
  (2 <= length (Dungeon.rooms d))%nat ->
  exists s',
    (create T Player newPlayer d s g).1 = Some s' /\
    forall cx cy,
      0 <= cx < Dungeon.width d -> 0 <= cy < Dungeon.height d ->
      exists tg ts,
        Layer.tileAt cx cy (groundLayer Player s') = Some tg /\
        Layer.tileAt cx cy (stuffLayer Player s') = Some ts /\
        Tile.collides tg = negb (bool_decide (Tile.index tg ∈ [-1; 6; 7; 8; 26])) /\
        Tile.collides ts = negb (bool_decide (Tile.index ts ∈ [-1; 6; 7; 8; 26])).
Proof.
  intros Hg HN.
  destruct (create_stages T Player newPlayer d s g Hg HN) as (st & e & _ & _ & Hc).
  eexists. split; [exact Hc |]. simpl. intros cx cy Hx Hy.
  assert (Hb : Layer.IsInLayerBounds cx cy (blankStuff d) = true).
  { apply IsInLayerBounds_true. simpl. split; assumption. }
  destruct (setCollisionByExclusion_cell walkable (paintStage T d g).1 cx cy)
    as (tg & Htg & _ & Hcg);
    [apply noCollision_paintStage, Hg | rewrite bounds_paintStage; assumption |].
  destruct (setCollisionByExclusion_cell walkable (stuffStage T d g e).1 cx cy)
    as (ts & Hts & _ & Hcs);
    [apply noCollision_stuffStage, Hg | rewrite bounds_stuffStage; assumption |].
  exists tg, ts. repeat split; assumption.
Qed.

(** ** Visibility tracker *)

Lemma fold_insert_lookup (cells : list (Z * Z)) (s : Shade)
    (m : gmap (Z * Z) Shade) (c : Z * Z) :
  fold_left (fun m' c' => <[c' := s]> m') cells m !! c =
  if decide (c ∈ cells) then Some s else m !! c.
Proof.
  revert m. induction cells as [| c0 cells IH]; intros m; cbn [fold_left].
  - rewrite decide_False by (intros H; inversion H). reflexivity.
  - rewrite IH. destruct (decide (c ∈ cells)) as [Hin | Hin].
    + rewrite decide_True by (apply list_elem_of_further; exact Hin). reflexivity.
    + destruct (decide (c = c0)) as [-> | Hne].
      * rewrite decide_True by apply list_elem_of_here. apply lookup_insert_eq.
      * rewrite decide_False by (rewrite elem_of_cons; tauto).
        apply lookup_insert_ne. congruence.
Qed.

Lemma covers_inRect r cx cy :
  Room.covers r cx cy = true <->
  inRect (Room.x r) (Room.y r) (Room.width r) (Room.height r) cx cy.
Proof.
  unfold Room.covers, Room.left, Room.right, Room.top, Room.bottom, inRect.
  rewrite !andb_true_iff, !Z.leb_le. lia.
Qed.

(** Shade of a cell after a room is shaded. *)
Lemma setRoomShade_shadeAt r s v cx cy :
  TV.shadeAt cx cy (TV.setRoomShade r s v) =
  if Room.covers r cx cy
  then (if Layer.IsInLayerBounds cx cy (TV.shadowLayer v) then Some s else None)
  else TV.shadeAt cx cy v.
Proof.
  unfold TV.shadeAt, TV.setRoomShade. simpl.
  destruct (Layer.IsInLayerBounds cx cy (TV.shadowLayer v)) eqn:Hb.
  - rewrite fold_insert_lookup.
    destruct (Room.covers r cx cy) eqn:Hc.
    + rewrite decide_True; [reflexivity |].
      apply elem_of_GetTilesWithin. split; [apply covers_inRect, Hc | exact Hb].
    + rewrite decide_False; [reflexivity |].
      rewrite elem_of_GetTilesWithin, <- covers_inRect, Hc. intros [? _]. discriminate.
  - destruct (Room.covers r cx cy); reflexivity.
Qed.

Lemma setActiveRoom_active room v :
  TV.activeRoom (TV.setActiveRoom room v) = room.
Proof.
  unfold TV.setActiveRoom. case_decide as H; [symmetry; exact H | reflexivity].
Qed.

(** C7. Calling [setActiveRoom] twice in a row with the same room gives the
    state one call gives.  A call with no room is defined on every state;
    after it no room is active, the room that was active is
    [PreviouslySeen] and its cells on the shadow grid are dimmed. *)
Theorem setActiveRoom_idempotent_null_safe (v : TV.t) (R : Room.t) :
  TV.setActiveRoom (Some R) (TV.setActiveRoom (Some R) v)
  = TV.setActiveRoom (Some R) v /\
  TV.activeRoom (TV.setActiveRoom None v) = None /\
  (forall r, TV.visibility r (TV.setActiveRoom None v) <> Active) /\
  (forall p, TV.activeRoom v = Some p ->
     TV.visibility p (TV.setActiveRoom None v) = PreviouslySeen /\
     forall cx cy, Room.covers p cx cy = true ->
       Layer.IsInLayerBounds cx cy (TV.shadowLayer v) = true ->
       TV.shadeAt cx cy (TV.setActiveRoom None v) = Some Dimmed).
Proof.
  split; [| split; [| split]].
  - pose proof (setActiveRoom_active (Some R) v) as Ha.
    set (v1 := TV.setActiveRoom (Some R) v) in *.
    unfold TV.setActiveRoom. rewrite Ha, decide_True by reflexivity. reflexivity.
  - apply setActiveRoom_active.
  - intros r. unfold TV.visibility. rewrite setActiveRoom_active.
    rewrite decide_False by discriminate. case_decide; discriminate.
  - intros p Hp. unfold TV.setActiveRoom. rewrite Hp.
    rewrite decide_False by discriminate. split.
    + unfold TV.visibility. cbn [TV.activeRoom TV.seen TV.setRoomShade].
      case_decide as H1; [discriminate |].
      case_decide as H2; [reflexivity |]. exfalso. apply H2, list_elem_of_here.
    + intros cx cy Hc Hb.
      change (TV.shadeAt cx cy (TV.setRoomShade p Dimmed v) = Some Dimmed).
      rewrite setRoomShade_shadeAt, Hc, Hb. reflexivity.
Qed.

Lemma setActiveRoom_shadeAt room v cx cy :
  TV.shadeAt cx cy (TV.setActiveRoom room v) =
  if decide (room = TV.activeRoom v) then TV.shadeAt cx cy v
  else
    let s1 :=
      match TV.activeRoom v with
      | Some prev => TV.shadeAt cx cy (TV.setRoomShade prev Dimmed v)
      | None => TV.shadeAt cx cy v
      end in
    match room with
    | Some r =>
        if Room.covers r cx cy
        then (if Layer.IsInLayerBounds cx cy (TV.shadowLayer v)
              then Some Clear else None)
        else s1
    | None => s1
    end.
Proof.
  unfold TV.setActiveRoom. case_decide; [reflexivity |].
  destruct (TV.activeRoom v) as [prev |], room as [r |]; cbv zeta;
    try reflexivity.
  - match goal with
    | |- _ = ?rhs =>
        change (TV.shadeAt cx cy
                  (TV.setRoomShade r Clear
                     (TV.mk (TV.shadowLayer (TV.setRoomShade prev Dimmed v))
                            (TV.shade (TV.setRoomShade prev Dimmed v))
                            (TV.activeRoom (TV.setRoomShade prev Dimmed v))
                            (prev :: TV.seen (TV.setRoomShade prev Dimmed v))))
                = rhs)
    end.
    rewrite setRoomShade_shadeAt. reflexivity.
  - match goal with
    | |- _ = ?rhs =>
        change (TV.shadeAt cx cy (TV.setRoomShade r Clear v) = rhs)
    end.
    rewrite setRoomShade_shadeAt. reflexivity.
Qed.

Lemma setActiveRoom_not_opaque room v cx cy :
  (forall sh, TV.shadeAt cx cy v = Some sh -> sh <> Opaque) ->
  forall sh, TV.shadeAt cx cy (TV.setActiveRoom room v) = Some sh -> sh <> Opaque.
Proof.
  intros Hv sh. rewrite setActiveRoom_shadeAt.
  case_decide; [apply Hv |]. cbv zeta.
  assert (Hs1 : match TV.activeRoom v with
                | Some prev => TV.shadeAt cx cy (TV.setRoomShade prev Dimmed v)
                | None => TV.shadeAt cx cy v
                end = Some sh -> sh <> Opaque).
  { destruct (TV.activeRoom v) as [prev |]; [| apply Hv].
    rewrite setRoomShade_shadeAt.
    destruct (Room.covers prev cx cy); [| apply Hv].
    destruct Layer.IsInLayerBounds; [| discriminate]. intros [= <-]. discriminate. }
  destruct room as [r |]; [| exact Hs1].
  destruct (Room.covers r cx cy); [| exact Hs1].
  destruct Layer.IsInLayerBounds; [| discriminate]. intros [= <-]. discriminate.
Qed.

Lemma setActiveRoom_remembered room v r :
  remembered r v -> remembered r (TV.setActiveRoom room v).
Proof.
  unfold remembered, TV.setActiveRoom. intros Hr.
  case_decide as Hsame; [exact Hr |].
  destruct (TV.activeRoom v) as [prev |] eqn:Ea.
  - right. destruct Hr as [[= ->] | Hin];
      destruct room; simpl;
        [apply list_elem_of_here | apply list_elem_of_here
         | apply list_elem_of_further, Hin | apply list_elem_of_further, Hin].
  - right. destruct Hr as [[=] | Hin]. destruct room; exact Hin.
Qed.

Lemma setActiveRoom_remembered_inv room v r :
  remembered r (TV.setActiveRoom room v) -> remembered r v \/ room = Some r.
Proof.
  unfold remembered, TV.setActiveRoom.
  case_decide as Hsame; [tauto |].
  destruct (TV.activeRoom v) as [prev |] eqn:Ea; destruct room as [r' |]; simpl;
    intros [H | H]; try (right; exact H); try discriminate;
    try (apply elem_of_cons in H; destruct H as [-> | H]); tauto.
Qed.

Lemma setActiveRoom_revealed room v : revealed v -> revealed (TV.setActiveRoom room v).
Proof.
  intros Hv r cx cy sh Hr Hc Hs.
  destruct (setActiveRoom_remembered_inv _ _ _ Hr) as [Hold | ->].
  - revert sh Hs. apply setActiveRoom_not_opaque. intros sh Hs.
    exact (Hv r cx cy sh Hold Hc Hs).
  - rewrite setActiveRoom_shadeAt in Hs. case_decide as Hsame.
    + apply (Hv r cx cy sh); [left; symmetry; exact Hsame | exact Hc | exact Hs].
    + cbv zeta in Hs. rewrite Hc in Hs.
      destruct Layer.IsInLayerBounds; [| discriminate].
      injection Hs as <-. discriminate.
Qed.

Lemma new_revealed shadow : revealed (TV.new shadow).
Proof.
  intros r cx cy sh [Ha | Hin]; [discriminate | inversion Hin].
Qed.

Lemma setActiveRooms_revealed calls v : revealed v -> revealed (setActiveRooms calls v).
Proof.
  revert v. induction calls as [| room calls IH]; intros v Hv; simpl; [exact Hv |].
  apply IH, setActiveRoom_revealed, Hv.
Qed.

Lemma setActiveRooms_remembered calls v r :
  remembered r v -> remembered r (setActiveRooms calls v).
Proof.
  revert v. induction calls as [| room calls IH]; intros v Hv; simpl; [exact Hv |].
  apply IH, setActiveRoom_remembered, Hv.
Qed.

Lemma visibility_remembered r v : TV.visibility r v <> Unseen <-> remembered r v.
Proof.
  unfold TV.visibility, remembered.
  repeat case_decide; split; intros; try tauto; try discriminate.
Qed.

(** C8. Along any sequence of [setActiveRoom] calls after the tracker is
    created, a room that is [Active] at some point is [Active] or
    [PreviouslySeen] at every later point, never [Unseen], and none of its
    cells on the shadow grid is opaque again. *)
Theorem visibility_monotonic (shadow : Layer.t)
    (before after : list (option Room.t)) (r : Room.t) :
  TV.visibility r (setActiveRooms before (TV.new shadow)) = Active ->
  let v := setActiveRooms after (setActiveRooms before (TV.new shadow)) in
  (TV.visibility r v = Active \/ TV.visibility r v = PreviouslySeen) /\
  TV.visibility r v <> Unseen /\
  forall cx cy sh,
    Room.covers r cx cy = true -> TV.shadeAt cx cy v = Some sh -> sh <> Opaque.
Proof.
  intros Hact v.
  assert (Hrem : remembered r v).
  { apply setActiveRooms_remembered, visibility_remembered. rewrite Hact. discriminate. }
  assert (Hvis : TV.visibility r v <> Unseen) by (apply visibility_remembered, Hrem).
  split; [| split; [exact Hvis |]].
  - destruct (TV.visibility r v); [contradiction | left | right]; reflexivity.
  - intros cx cy sh Hc Hs.
    eapply (setActiveRooms_revealed after); [| exact Hrem | exact Hc | exact Hs].
    apply setActiveRooms_revealed, new_revealed.
Qed.

(** ** The frame update and the stairs trigger *)

Section SceneProperties.

Variable TILES : TileMapping.
Variable Player : Type.
Variable Keys : Type.
Variable newPlayer : Z -> Z -> Player.
Variable playerUpdate : Keys -> Player -> Player.
Variable playerFreeze : Player -> Player.
Variable spriteX spriteY : Player -> Q.

Local Abbreviation step :=
  (step TILES Player Keys playerUpdate playerFreeze spriteX spriteY).
Local Abbreviation run :=
  (run TILES Player Keys playerUpdate playerFreeze spriteX spriteY).
Local Abbreviation armedOnlyOnStairs := (armedOnlyOnStairs TILES Player).

(** C9. Once [hasPlayerReachedStairs] is set, [update] returns the scene as
    it is, however often it is called: the player, the visibility tracker
    (shadow grid and active room) and everything else stay as they were. *)
Theorem update_frozen_after_stairs (s : Scene Player) :
  hasPlayerReachedStairs Player s = true ->
  (forall keys time delta,
     update Player Keys playerUpdate spriteX spriteY keys time delta s = s) /\
  (forall frames : list (Keys * Q * Q),
     fold_left
       (fun s' f =>
          update Player Keys playerUpdate spriteX spriteY f.1.1 f.1.2 f.2 s')
       frames s = s).
Proof.
  intros Hflag.
  assert (Hone : forall keys time delta,
             update Player Keys playerUpdate spriteX spriteY keys time delta s = s).
  { intros keys time delta. unfold update. rewrite Hflag. reflexivity. }
  split; [exact Hone |].
  intros frames. induction frames as [| f frames IH]; simpl; [reflexivity |].
  rewrite Hone. exact IH.
Qed.

Lemma step_cases (s : Scene Player) (e : Event Keys) :
  armedOnlyOnStairs s ->
  armedOnlyOnStairs (step s e) /\
  ((hostEffects Player (step s e) = hostEffects Player s /\
    hasPlayerReachedStairs Player (step s e) = hasPlayerReachedStairs Player s) \/
   (hostEffects Player (step s e) = hostEffects Player s ++ goalSequence /\
    hasPlayerReachedStairs Player s = false /\
    hasPlayerReachedStairs Player (step s e) = true)).
Proof.
  intros Harm. destruct e as [i | keys time delta]; simpl.
  - unfold overlapTile.
    destruct (Layer.callbacks (stuffLayer Player s) !! i) as [[|] |] eqn:Ecb.
    + destruct (Harm i Ecb) as [-> Hflag]. split.
      * intros j Hj. simpl in Hj.
        destruct (decide (STAIRS TILES = j)) as [<- | Hne].
        -- rewrite lookup_insert_eq in Hj. discriminate.
        -- rewrite lookup_insert_ne in Hj by exact Hne.
           destruct (Harm j Hj) as [-> _]. contradiction.
      * right. simpl. unfold goalSequence.
        rewrite <- !app_assoc. auto.
    + split; [exact Harm | left; split; reflexivity].
    + split; [exact Harm | left; split; reflexivity].
  - unfold update. destruct (hasPlayerReachedStairs Player s) eqn:Hflag.
    + split; [exact Harm | left; split; [reflexivity | exact Hflag]].
    + split; [| left; split; reflexivity].
      intros i Hi. simpl in Hi |- *. destruct (Harm i Hi) as [-> _]. auto.
Qed.

Lemma run_after_goal (events : list (Event Keys)) (s : Scene Player) :
  armedOnlyOnStairs s -> hasPlayerReachedStairs Player s = true ->
  hostEffects Player (run events s) = hostEffects Player s /\
  hasPlayerReachedStairs Player (run events s) = true.
Proof.
  revert s. induction events as [| e events IH]; intros s Harm Hflag; simpl;
    [split; [reflexivity | exact Hflag] |].
  destruct (step_cases s e Harm) as [Harm' [[Heff Hf] | (_ & Hf & _)]];
    [| congruence].
  destruct (IH (step s e) Harm') as [Heff' Hf']; [congruence |].
  split; [congruence | exact Hf'].
Qed.

Lemma run_at_most_once (events : list (Event Keys)) (s : Scene Player) :
  armedOnlyOnStairs s ->
  hostEffects Player (run events s) = hostEffects Player s \/
  hostEffects Player (run events s) = hostEffects Player s ++ goalSequence.
Proof.
  revert s. induction events as [| e events IH]; intros s Harm; simpl;
    [left; reflexivity |].
  destruct (step_cases s e Harm) as [Harm' [[Heff Hf] | (Heff & _ & Hf)]].
  - destruct (IH (step s e) Harm') as [H | H]; [left | right]; congruence.
  - right. destruct (run_after_goal events (step s e) Harm' Hf) as [H _].
    congruence.
Qed.

Lemma callbacks_stuffStage T d g e :
  rng_ok g -> Layer.callbacks (stuffStage T d g e).1 = ∅.
Proof.
  intros Hg.
  destruct (returns_placeAllStuff_kept T (otherRooms (separateStage T d g).1)
              (Layer.putTileAt (STAIRS T) (Room.centerX e) (Room.centerY e)
                               (blankStuff d))
              _ (rng_ok_separateStage T d g Hg)) as [[(_ & _ & _ & Hcb) _] _].
  fold (stuffStage T d g e) in Hcb. rewrite Hcb.
  destruct (putTileAt_frame (STAIRS T) (Room.centerX e) (Room.centerY e) (blankStuff d))
    as (_ & _ & _ & Hcb'). rewrite Hcb'. reflexivity.
Qed.

Lemma setCollisionByExclusion_callbacks indexes L :
  Layer.callbacks (Layer.setCollisionByExclusion indexes L) = Layer.callbacks L.
Proof.
  unfold Layer.setCollisionByExclusion.
  destruct (fold_excludeStep indexes
              (Layer.GetTilesWithin 0 0 (Layer.width L) (Layer.height L) L) L)
    as (_ & _ & Hcb & _). exact Hcb.
Qed.

(** C10. In a level set up by [create], the goal sequence (freeze, fade,
    restart on fade-out) is emitted at most once, whatever overlaps and
    frames follow.  The first stairs overlap runs the goal handler, whose
    first statement swaps the stairs callback for the no-op while
    [hasPlayerReachedStairs] is still false; the rest of the handler sets
    the flag and emits the sequence; every later overlap finds the no-op. *)
Theorem stairs_trigger_at_most_once (d : Dungeon.t) (s : Scene Player)
    (g : Rng) (events : list (Event Keys)) :
  rng_ok g ->
  (2 <= length (Dungeon.rooms d))%nat ->
  exists s',
    (create TILES Player newPlayer d s g).1 = Some s' /\
    hasPlayerReachedStairs Player s' = false /\
    Layer.callbacks (stuffLayer Player s') !! STAIRS TILES = Some ReachedStairs /\
    (let s0 := setStairsCallback TILES Player NoOp s' in
     let s1 := overlapTile TILES Player playerFreeze (STAIRS TILES) s' in
     s1 = reachStairs Player playerFreeze s0 /\
     Layer.callbacks (stuffLayer Player s0) !! STAIRS TILES = Some NoOp /\
     hasPlayerReachedStairs Player s0 = false /\
     Layer.callbacks (stuffLayer Player s1) !! STAIRS TILES = Some NoOp /\
     hasPlayerReachedStairs Player s1 = true /\
     hostEffects Player s1 = hostEffects Player s' ++ goalSequence /\
     forall later, hostEffects Player (run later s1) = hostEffects Player s1) /\
    (hostEffects Player (run events s') = hostEffects Player s' \/
     hostEffects Player (run events s') = hostEffects Player s' ++ goalSequence).
Proof.
  intros Hg HN.
  destruct (create_stages TILES Player newPlayer d s g Hg HN)
    as (st & e & _ & _ & Hc).
  eexists. split; [exact Hc |].
  set (s' := mkScene Player _ _ _ _ _ _ _ _).
  assert (Hcb : Layer.callbacks (stuffLayer Player s')
                = {[STAIRS TILES := ReachedStairs]}).
  { simpl. rewrite setCollisionByExclusion_callbacks, callbacks_stuffStage by exact Hg.
    reflexivity. }
  assert (Harm : armedOnlyOnStairs s').
  { intros i Hi. rewrite Hcb in Hi. apply lookup_singleton_Some in Hi.
    destruct Hi as [<- _]. split; reflexivity. }
  assert (Hlook : Layer.callbacks (stuffLayer Player s') !! STAIRS TILES
                  = Some ReachedStairs).
  { rewrite Hcb. apply lookup_singleton_eq. }
  split; [reflexivity |]. split; [exact Hlook |]. split.
  - cbv zeta.
    pose proof (step_cases s' (Overlap (STAIRS TILES)) Harm) as [Harm1 _].
    simpl step in Harm1. unfold overlapTile in *. rewrite Hlook in *.
    split; [reflexivity |].
    split; [simpl; apply lookup_insert_eq |]. split; [reflexivity |].
    split; [simpl; apply lookup_insert_eq |]. split; [reflexivity |].
    split; [simpl; unfold goalSequence; rewrite <- !app_assoc; reflexivity |].
    intros later. apply run_after_goal; [exact Harm1 | reflexivity].
  - apply run_at_most_once, Harm.
Qed.

End SceneProperties.

(** ** The sample level *)

Lemma demoRng_ok : rng_ok demoRng.
Proof.
  intros n. unfold demoRng, Qle, Qlt. cbn [draws Qnum Qden].
  pose proof (Nat.mod_upper_bound (n * 7) 10 ltac:(discriminate)) as Hlt.
  revert Hlt. generalize ((n * 7) mod 10)%nat. intros m Hm. lia.
Qed.

Lemma demoRooms_apart : pairwiseApart demoRooms.
Proof.
  simpl. unfold roomsApart, Room.left, Room.right, Room.top, Room.bottom.
  repeat (split || apply Forall_cons || apply Forall_nil); simpl; lia.
Qed.

Lemma demoRooms_sized : Forall roomSized demoRooms.
Proof.
  unfold demoRooms, roomSized.
  repeat (apply Forall_cons; split; [simpl; lia |]). constructor.
Qed.


Lemma demoTiles_tower : towerFits demoTiles.
Proof. unfold towerFits, patWidth, patHeight. simpl. lia. Qed.

Example demo_top_row :
  demoGroundRow 1 = [20; 3; 39; 39; 58; 39; 39; 4; 3; 39; 58; 39; 39; 39; 39; 39; 4].
Proof. vm_compute. reflexivity. Qed.

Example demo_door_row :
  demoGroundRow 4 = [20; 21; 6; 6; 6; 6; 6; 6; 6; 6; 6; 6; 6; 6; 6; 6; 38].
Proof. vm_compute. reflexivity. Qed.

Example demo_corner_door : doorEdge 7 7 0 0 = Some EdgeTop.
Proof. reflexivity. Qed.

Example demo_separation :
  let sep := (separateRooms demoDungeon demoRng).1 in
  startRoom sep = Some (Room.mk 1 1 7 7 [(6, 3)]) /\
  endRoom sep = Some demoRoom /\
  map Room.x (rooms sep) = [24; 17; 24] /\
  map Room.y (otherRooms sep) = [1; 1].
Proof. vm_compute. repeat split. Qed.

Example demo_fewer_than_two_rooms :
  (create demoTiles unit (fun _ _ => tt)
          (Dungeon.mk 50 50 [demoRoom]) demoScene demoRng).1 = None.
Proof. vm_compute. reflexivity. Qed.

Example scenario_five_rooms :
  let sep := (separateRooms demoDungeon scenarioRng).1 in
  startRoom sep = demoRooms !! 0%nat /\
  endRoom sep = demoRooms !! 3%nat /\
  Some <$> rooms sep = [demoRooms !! 1%nat; demoRooms !! 4%nat; demoRooms !! 2%nat] /\
  Some <$> otherRooms sep = [demoRooms !! 1%nat; demoRooms !! 4%nat].
Proof. vm_compute. repeat split. Qed.

Example scenario_chest :
  Layer.indexAt 12 5
    (placeStuff demoTiles (blankStuff demoDungeon) demoRoom demoRng).1
  = Some 166.
Proof. vm_compute. reflexivity. Qed.

Example scenario_enter_leave_return :
  let v0 := TV.new (blankStuff demoDungeon) in
  let v1 := TV.setActiveRoom (Some roomA) v0 in
  let v2 := TV.setActiveRoom (Some roomB) v1 in
  let v3 := TV.setActiveRoom (Some roomA) v2 in
  TV.shadeAt 4 4 v0 = Some Opaque /\
  TV.shadeAt 4 4 v1 = Some Clear /\
  TV.shadeAt 4 4 v2 = Some Dimmed /\
  TV.shadeAt 4 4 v3 = Some Clear /\
  TV.shadeAt 12 5 v3 = Some Dimmed /\
  TV.shadeAt 40 40 v3 = Some Opaque /\
  TV.visibility roomB v3 = PreviouslySeen.
Proof. vm_compute. repeat split. Qed.

(** * The theorems on the sample level *)


Lemma door_edge_and_anchor_witness :
  1 < 7 /\ (1 < length (edgeConditions 7 7 0 0))%nat /\
  (doorEdge 7 7 0 0 = Some EdgeTop \/ doorEdge 7 7 0 0 = Some EdgeBottom).
Proof.
  split; [lia |]. split; [simpl; lia |].
  apply (proj1 (proj2 (proj2
           (door_edge_and_anchor demoTiles (Room.mk 1 1 7 7 [(0, 0)])
              (blankGround demoTiles demoDungeon) 0 0))));
    [simpl; lia | simpl; lia].
Defined.




Lemma collision_by_exclusion_witness :
  rng_ok demoRng /\ (2 <= length (Dungeon.rooms demoDungeon))%nat /\
  exists s',
    (create demoTiles unit (fun _ _ => tt) demoDungeon demoScene demoRng).1
      = Some s' /\
    forall cx cy,
      0 <= cx < Dungeon.width demoDungeon ->
      0 <= cy < Dungeon.height demoDungeon ->
      exists tg ts,
        Layer.tileAt cx cy (groundLayer unit s') = Some tg /\
        Layer.tileAt cx cy (stuffLayer unit s') = Some ts /\
        Tile.collides tg = negb (bool_decide (Tile.index tg ∈ [-1; 6; 7; 8; 26])) /\
        Tile.collides ts = negb (bool_decide (Tile.index ts ∈ [-1; 6; 7; 8; 26])).
Proof.
  split; [exact demoRng_ok |]. split; [simpl; lia |].
  apply (collision_by_exclusion demoTiles unit (fun _ _ => tt) demoDungeon
           demoScene demoRng); [exact demoRng_ok | simpl; lia].
Defined.

Lemma visibility_monotonic_witness :
  TV.visibility demoRoom
    (setActiveRooms [Some demoRoom] (TV.new (blankStuff demoDungeon))) = Active /\
  TV.visibility demoRoom
    (setActiveRooms [None; Some (Room.mk 1 1 7 7 [(6, 3)])]
       (setActiveRooms [Some demoRoom] (TV.new (blankStuff demoDungeon))))
  <> Unseen.
Proof.
  split; [vm_compute; reflexivity |].
  apply (visibility_monotonic (blankStuff demoDungeon) [Some demoRoom]
           [None; Some (Room.mk 1 1 7 7 [(6, 3)])] demoRoom).
  vm_compute. reflexivity.
Defined.

Lemma update_frozen_after_stairs_witness :
  let s := mkScene unit tt demoDungeon (blankStuff demoDungeon)
                   (blankStuff demoDungeon) 1 true
                   (TV.new (blankStuff demoDungeon)) goalSequence in
  hasPlayerReachedStairs unit s = true /\
  update unit unit (fun _ p => p) (fun _ => 100%Q) (fun _ => 100%Q) tt 0%Q 16%Q s = s.
Proof.
  intros s. split; [reflexivity |].
  apply (update_frozen_after_stairs unit unit (fun _ p => p)
           (fun _ => 100%Q) (fun _ => 100%Q) s).
  reflexivity.
Defined.

Lemma stairs_trigger_at_most_once_witness :
  rng_ok demoRng /\ (2 <= length (Dungeon.rooms demoDungeon))%nat /\
  exists s',
    demoCreated = Some s' /\
    (hostEffects unit
       (run demoTiles unit unit (fun _ p => p) (fun p => p)
            (fun _ => 100%Q) (fun _ => 100%Q)
            [Overlap 81; Frame tt 0%Q 16%Q; Overlap 81] s')
     = hostEffects unit s' \/
     hostEffects unit
       (run demoTiles unit unit (fun _ p => p) (fun p => p)
            (fun _ => 100%Q) (fun _ => 100%Q)
            [Overlap 81; Frame tt 0%Q 16%Q; Overlap 81] s')
     = hostEffects unit s' ++ goalSequence).
Proof.
  split; [exact demoRng_ok |]. split; [simpl; lia |].
  destruct (stairs_trigger_at_most_once demoTiles unit unit (fun _ _ => tt)
              (fun _ p => p) (fun p => p) (fun _ => 100%Q) (fun _ => 100%Q)
              demoDungeon demoScene demoRng
              [Overlap 81; Frame tt 0%Q 16%Q; Overlap 81]
              demoRng_ok ltac:(simpl; lia))
    as (s' & Hc & _ & _ & _ & Hrun).
  exists s'. split; [exact Hc | exact Hrun].
Defined.
(** * More of the scene: properties *)

(** ** [create] as a whole *)

Lemma returns_intro {A} (m : Rand A) (P : A -> Prop) :
  (forall g, rng_ok g -> P (m g).1) -> returns m (fun _ => True) -> returns m P.
Proof. intros HP Hm g Hg. split; [apply HP, Hg | apply (Hm g Hg)]. Qed.

Lemma separateRooms_few (d : Dungeon.t) (g : Rng) :
  (length (Dungeon.rooms d) < 2)%nat -> endRoom (separateRooms d g).1 = None.
Proof.
  intros HN. unfold separateRooms.
  destruct (Dungeon.rooms d) as [| r0 [| r1 rest]] eqn:E;
    [| | simpl in HN; lia];
    cbv beta iota zeta delta
        [shift mbind mret rand_bind rand_ret RemoveRandomElement Math_random];
    reflexivity.
Qed.

Lemma returns_separateRooms_ends (d : Dungeon.t) :
  returns (separateRooms d)
    (fun sep =>
       if decide (2 <= length (Dungeon.rooms d))%nat
       then exists st e, startRoom sep = Some st /\ endRoom sep = Some e
       else endRoom sep = None).
Proof.
  apply returns_intro; [| apply returns_separateRooms].
  intros g Hg. case_decide as HN.
  - destruct (separateRooms_partition d g Hg HN) as (st & e & n & Hst & He & _).
    exists st, e. split; assumption.
  - apply separateRooms_few. lia.
Qed.

Lemma returns_create (T : TileMapping) (Player : Type)
    (newPlayer : Z -> Z -> Player) (d : Dungeon.t) (s : Scene Player) :
  returns (create T Player newPlayer d s) (created T Player d s).
Proof.
  unfold create. cbv zeta.
  eapply returns_bind; [apply returns_paintRooms_kept |]. intros ground1 _.
  eapply returns_bind; [apply returns_separateRooms_ends |]. intros sep Hsep.
  case_decide as HN.
  - destruct Hsep as (st & e & Hst & He). rewrite Hst, He.
    eapply returns_bind; [apply returns_placeAllStuff_kept |].
    intros stuff2 [(_ & _ & _ & Hcb) _]. apply returns_ret. simpl.
    repeat split; try assumption.
    rewrite setCollisionByExclusion_callbacks, Hcb.
    destruct (putTileAt_frame (STAIRS T) (Room.centerX e) (Room.centerY e)
                (Layer.createBlankLayer (Dungeon.width d) (Dungeon.height d)))
      as (_ & _ & _ & Hcb'). rewrite Hcb'. reflexivity.
  - rewrite Hsep. destruct (startRoom sep); apply returns_ret; simpl; lia.
Qed.

(** X1. [create] produces a scene exactly when the dungeon has at least two
    rooms; with fewer, the end room is undefined and reading its centre
    throws. *)
Theorem create_needs_two_rooms (T : TileMapping) (Player : Type)
    (newPlayer : Z -> Z -> Player) (d : Dungeon.t) (s : Scene Player) (g : Rng) :
  rng_ok g ->
  ((create T Player newPlayer d s g).1 = None
   <-> (length (Dungeon.rooms d) < 2)%nat) /\
  (is_Some (create T Player newPlayer d s g).1
   <-> (2 <= length (Dungeon.rooms d))%nat).
Proof.
  intros Hg. destruct (returns_create T Player newPlayer d s g Hg) as [Hc _].
  destruct (create T Player newPlayer d s g).1 as [s' |]; simpl in Hc.
  - destruct Hc as [HN _]. split; split; intros H;
      try discriminate; try lia; try exact HN; eauto.
  - split; split; intros H; try reflexivity; try exact Hc; try lia.
    destruct H as [? H]. discriminate.
Qed.

(** ** Levels in a row *)

Lemma last_nonempty_default {A} (a : A) (l : list A) (d1 d2 : A) :
  List.last (a :: l) d1 = List.last (a :: l) d2.
Proof.
  revert a. induction l as [| b l IH]; intros a; [reflexivity |].
  change (List.last (b :: l) d1 = List.last (b :: l) d2). apply IH.
Qed.

Lemma returns_restarts (T : TileMapping) (Player : Type)
    (newPlayer : Z -> Z -> Player) (ds : list Dungeon.t) (s : Scene Player) :
  Forall (fun d => 2 <= length (Dungeon.rooms d))%nat ds ->
  returns (restarts T Player newPlayer ds s)
    (fun r => exists s',
       r = Some s' /\
       level Player s' = level Player s + Z.of_nat (length ds) /\
       hostEffects Player s' = hostEffects Player s /\
       match ds with
       | [] => s' = s
       | _ :: _ =>
           hasPlayerReachedStairs Player s' = false /\
           dungeon Player s' = List.last ds (dungeon Player s) /\
           Layer.callbacks (stuffLayer Player s') = {[STAIRS T := ReachedStairs]}
       end).
Proof.
  revert s. induction ds as [| d ds IH]; intros s Hall; simpl restarts.
  - apply returns_ret. exists s. repeat split; simpl; lia.
  - apply Forall_cons in Hall. destruct Hall as [Hd Hall].
    eapply returns_bind; [apply returns_create |]. intros [s1 |] Hc; simpl in Hc;
      [| lia].
    destruct Hc as (_ & Hlev & Hflag & Heff & Hdun & Hcb).
    eapply returns_weaken; [apply IH, Hall |].
    intros r (s' & -> & Hlev' & Heff' & Hlast). exists s'.
    split; [reflexivity |]. split; [rewrite Hlev', Hlev, length_cons; lia |].
    split; [congruence |].
    destruct ds as [| d' ds'].
    + subst s'. simpl. exact (conj Hflag (conj Hdun Hcb)).
    + destruct Hlast as (Hf & Hd' & Hc'). split; [exact Hf |]. split; [| exact Hc'].
      rewrite Hd'. change (List.last (d :: d' :: ds') (dungeon Player s))
        with (List.last (d' :: ds') (dungeon Player s)).
      apply last_nonempty_default.
Qed.

(** X2. A run of levels: as long as every generated dungeon has at least
    two rooms, each restart succeeds, the level counter grows by one per
    [create], and the last [create] leaves the goal flag cleared and the
    stairs callback armed, whatever state the previous level ended in. *)
Theorem levels_count_restarts (T : TileMapping) (Player : Type)
    (newPlayer : Z -> Z -> Player) (ds : list Dungeon.t) (d : Dungeon.t)
    (s : Scene Player) (g : Rng) :
  rng_ok g ->
  Forall (fun d' => 2 <= length (Dungeon.rooms d'))%nat (ds ++ [d]) ->
  exists s',
    (restarts T Player newPlayer (ds ++ [d]) s g).1 = Some s' /\
    level Player s' = level Player s + Z.of_nat (length ds) + 1 /\
    hasPlayerReachedStairs Player s' = false /\
    dungeon Player s' = d /\
    Layer.callbacks (stuffLayer Player s') !! STAIRS T = Some ReachedStairs.
Proof.
  intros Hg Hall.
  destruct (returns_restarts T Player newPlayer (ds ++ [d]) s Hall g Hg)
    as [(s' & Hr & Hlev & _ & Hlast) _].
  exists s'. split; [exact Hr |].
  rewrite length_app in Hlev. simpl in Hlev.
  split; [lia |].
  destruct (ds ++ [d]) as [| d0 rest] eqn:E; [destruct ds; discriminate |].
  destruct Hlast as (Hf & Hd & Hcb). split; [exact Hf |]. split.
  - rewrite Hd, <- E. apply last_last.
  - rewrite Hcb. apply lookup_singleton_eq.
Qed.

(** ** What the events of a level leave alone *)

Section SceneFrame.

Variable TILES : TileMapping.
Variable Player : Type.
Variable Keys : Type.
Variable newPlayer : Z -> Z -> Player.
Variable playerUpdate : Keys -> Player -> Player.
Variable playerFreeze : Player -> Player.
Variable spriteX spriteY : Player -> Q.

Local Abbreviation step :=
  (step TILES Player Keys playerUpdate playerFreeze spriteX spriteY).
Local Abbreviation run :=
  (run TILES Player Keys playerUpdate playerFreeze spriteX spriteY).
Local Abbreviation armedOnlyOnStairs := (armedOnlyOnStairs TILES Player).

Lemma step_fixed (s : Scene Player) (e : Event Keys) :
  armedOnlyOnStairs s -> hasPlayerReachedStairs Player s = true ->
  step s e = s.
Proof.
  intros Harm Hflag. destruct e as [i | keys time delta]; simpl.
  - unfold overlapTile.
    destruct (Layer.callbacks (stuffLayer Player s) !! i) as [[|] |] eqn:Ecb;
      try reflexivity.
    destruct (Harm i Ecb) as [_ Hf]. congruence.
  - unfold update. rewrite Hflag. reflexivity.
Qed.

Lemma run_fixed (events : list (Event Keys)) (s : Scene Player) :
  armedOnlyOnStairs s -> hasPlayerReachedStairs Player s = true ->
  run events s = s.
Proof.
  intros Harm Hflag. induction events as [| e events IH]; [reflexivity |].
  simpl. rewrite step_fixed by assumption. exact IH.
Qed.

(** X3. In a level set up by [create], once the player has overlapped the
    stairs the whole scene is frozen: no later stairs overlap, overlap with
    any other tile, or frame update changes any field of it. *)
Theorem scene_frozen_after_goal (d : Dungeon.t) (s : Scene Player) (g : Rng)
    (before later : list (Event Keys)) :
  rng_ok g ->
  (2 <= length (Dungeon.rooms d))%nat ->
  exists s',
    (create TILES Player newPlayer d s g).1 = Some s' /\
    (hasPlayerReachedStairs Player (run before s') = true ->
     run later (run before s') = run before s') /\
    run later (overlapTile TILES Player playerFreeze (STAIRS TILES) s')
    = overlapTile TILES Player playerFreeze (STAIRS TILES) s'.
Proof.
  intros Hg HN.
  destruct (returns_create TILES Player newPlayer d s g Hg) as [Hc _].
  destruct (create TILES Player newPlayer d s g).1 as [s' |]; simpl in Hc; [| lia].
  destruct Hc as (_ & _ & Hflag & _ & _ & Hcb).
  assert (Harm : armedOnlyOnStairs s').
  { intros i Hi. rewrite Hcb in Hi. apply lookup_singleton_Some in Hi.
    destruct Hi as [<- _]. split; [reflexivity | exact Hflag]. }
  assert (Hruns : forall evs s0, armedOnlyOnStairs s0 -> armedOnlyOnStairs (run evs s0)).
  { induction evs as [| e evs IH]; intros s0 H0; [exact H0 |].
    simpl. apply IH. apply (step_cases TILES Player Keys playerUpdate playerFreeze
                              spriteX spriteY s0 e H0). }
  exists s'. split; [reflexivity |]. split.
  - intros Hf. apply run_fixed; [apply Hruns, Harm | exact Hf].
  - pose proof (step_cases TILES Player Keys playerUpdate playerFreeze
                  spriteX spriteY s' (Overlap (STAIRS TILES)) Harm) as [Harm1 _].
    simpl in Harm1. apply run_fixed; [exact Harm1 |].
    unfold overlapTile. rewrite Hcb, lookup_singleton_eq. reflexivity.
Qed.

(** X4. Nothing that happens during a level repaints it: over any sequence
    of tile overlaps and frame updates the ground layer, the tiles and the
    collision list of the stuff layer, the dungeon and the level counter
    stay what they were. *)
Theorem events_never_repaint (events : list (Event Keys)) (s : Scene Player) :
  groundLayer Player (run events s) = groundLayer Player s /\
  Layer.data (stuffLayer Player (run events s))
  = Layer.data (stuffLayer Player s) /\
  Layer.collideIndexes (stuffLayer Player (run events s))
  = Layer.collideIndexes (stuffLayer Player s) /\
  Layer.width (stuffLayer Player (run events s))
  = Layer.width (stuffLayer Player s) /\
  Layer.height (stuffLayer Player (run events s))
  = Layer.height (stuffLayer Player s) /\
  dungeon Player (run events s) = dungeon Player s /\
  level Player (run events s) = level Player s.
Proof.
  revert s. induction events as [| e events IH]; intros s; [repeat split |].
  simpl.
  destruct (IH (step s e)) as (Hg & Hd & Hci & Hw & Hh & Hdun & Hlev).
  rewrite Hg, Hd, Hci, Hw, Hh, Hdun, Hlev. clear IH Hg Hd Hci Hw Hh Hdun Hlev.
  destruct e as [i | keys time delta]; simpl.
  - unfold overlapTile.
    destruct (Layer.callbacks (stuffLayer Player s) !! i) as [[|] |];
      repeat split.
  - unfold update. destruct (hasPlayerReachedStairs Player s); repeat split.
Qed.

End SceneFrame.

(** ** Rooms left without props *)

(** X5. The nine-tenths cut always leaves something out: with three or
    more rooms, strictly fewer rooms get props than remain after the start
    and end rooms are taken; with three rooms or fewer, no room gets props
    at all. *)
Theorem some_room_stays_empty (d : Dungeon.t) (g : Rng) :
  rng_ok g ->
  let sep := (separateRooms d g).1 in
  let N := length (Dungeon.rooms d) in
  ((3 <= N)%nat ->
   length (rooms sep) = (N - 2)%nat /\
   (length (otherRooms sep) < length (rooms sep))%nat) /\
  ((N <= 3)%nat -> otherRooms sep = []).
Proof.
  intros Hg sep N.
  destruct (Dungeon.rooms d) as [| r0 rest] eqn:Erooms.
  { split; [simpl in N; lia |]. intros _. unfold sep, separateRooms.
    rewrite Erooms. reflexivity. }
  destruct rest as [| r1 rest'].
  { split; [simpl in N; lia |]. intros _. unfold sep, separateRooms.
    rewrite Erooms. reflexivity. }
  destruct (separateRooms_shape d g r0 (r1 :: rest') Hg Erooms ltac:(discriminate))
    as (e & sh & Hq & He & Hsh & Esep).
  destruct (SpliceOne_Permutation (r1 :: rest') _ e He) as [_ Hperm].
  assert (Hlen : length sh = length rest').
  { apply Permutation_length in Hsh, Hperm. rewrite Hsh.
    revert Hperm. generalize (take (Z.to_nat
      (Qfloor (draws g (cursor g) * inject_Z (Z.of_nat (length (r1 :: rest'))))))
      (r1 :: rest') ++ drop (S (Z.to_nat
      (Qfloor (draws g (cursor g) * inject_Z (Z.of_nat (length (r1 :: rest')))))))
      (r1 :: rest')).
    intros l Hl. rewrite !length_cons in Hl. lia. }
  unfold sep. rewrite Esep. simpl. unfold N. rewrite !length_cons.
  rewrite Hlen.
  assert (Hdiv : 0 <= Z.of_nat (length rest') * 9 / 10
                 /\ (0 < Z.of_nat (length rest') ->
                     Z.of_nat (length rest') * 9 / 10 < Z.of_nat (length rest'))).
  { split; [apply Z.div_pos; lia |]. intros Hpos.
    apply Z.div_lt_upper_bound; lia. }
  split.
  - intros H3. split; [lia |]. rewrite length_take, Hlen. lia.
  - intros H3. assert (length rest' = 0 \/ length rest' = 1)%nat as [E | E] by lia;
      rewrite E; reflexivity.
Qed.

(** ** Where the player starts *)

Lemma Qfloor_unique (q : Q) (c : Z) :
  (inject_Z c <= q)%Q -> (q < inject_Z (c + 1))%Q -> Qfloor q = c.
Proof.
  intros Hlo Hhi.
  assert (H1 : c <= Qfloor q).
  { rewrite <- (Qfloor_Z c). apply Qfloor_resp_le, Hlo. }
  assert (H2 : Qfloor q < c + 1).
  { rewrite Zlt_Qlt. eapply Qle_lt_trans; [apply Qfloor_le | exact Hhi]. }
  lia.
Qed.

(** Every world coordinate on a tile maps back to that tile. *)
Lemma worldToTile_on_tile (world : Q) (tile : Z) :
  (inject_Z (tileToWorld tile) <= world)%Q ->
  (world < inject_Z (tileToWorld tile + 48))%Q ->
  worldToTile world = tile.
Proof.
  unfold tileToWorld, worldToTile. intros Hlo Hhi.
  rewrite inject_Z_plus in Hhi. rewrite inject_Z_mult in Hlo, Hhi.
  apply Qfloor_unique.
  - apply Qle_shift_div_l; [reflexivity | exact Hlo].
  - apply Qlt_shift_div_r; [reflexivity |].
    rewrite inject_Z_plus. change (inject_Z 1) with 1%Q.
    change (inject_Z 48) with 48%Q in *. lra.
Qed.

Lemma getRoomAt_first (d : Dungeon.t) (r0 : Room.t) (rest : list Room.t)
    (tx ty : Z) :
  Dungeon.rooms d = r0 :: rest ->
  0 <= tx < Dungeon.width d -> 0 <= ty < Dungeon.height d ->
  Room.covers r0 tx ty = true ->
  Dungeon.getRoomAt tx ty d = Some r0.
Proof.
  intros Er Hx Hy Hc. unfold Dungeon.getRoomAt. rewrite Er.
  replace ((tx <? 0) || (ty <? 0) || (Dungeon.width d <=? tx)
           || (Dungeon.height d <=? ty)) with false by lia.
  simpl. rewrite Hc. reflexivity.
Qed.

(** X6. [create] puts the player on the centre tile of the first generated
    room, and the room lookup of [update] maps every world position on that
    tile back to that room: the player starts inside the start room. *)
Theorem player_starts_in_start_room (T : TileMapping) (Player : Type)
    (newPlayer : Z -> Z -> Player) (d : Dungeon.t) (s : Scene Player)
    (g : Rng) (r0 : Room.t) :
  rng_ok g ->
  (2 <= length (Dungeon.rooms d))%nat ->
  Dungeon.rooms d !! 0%nat = Some r0 ->
  0 < Room.width r0 -> 0 < Room.height r0 -> roomInGrid d r0 ->
  exists s',
    (create T Player newPlayer d s g).1 = Some s' /\
    player Player s'
    = newPlayer (tileToWorld (Room.centerX r0)) (tileToWorld (Room.centerY r0)) /\
    forall wx wy : Q,
      (inject_Z (tileToWorld (Room.centerX r0)) <= wx)%Q ->
      (wx < inject_Z (tileToWorld (Room.centerX r0) + 48))%Q ->
      (inject_Z (tileToWorld (Room.centerY r0)) <= wy)%Q ->
      (wy < inject_Z (tileToWorld (Room.centerY r0) + 48))%Q ->
      Dungeon.getRoomAt (worldToTile wx) (worldToTile wy) (dungeon Player s')
      = Some r0.
Proof.
  intros Hg HN Hr0 Hw Hh (Hx0 & Hx1 & Hy0 & Hy1).
  destruct (create_stages T Player newPlayer d s g Hg HN) as (st & e & Hst & _ & Hc).
  destruct (Dungeon.rooms d) as [| r0' rest] eqn:Erooms; [discriminate |].
  injection Hr0 as ->.
  assert (Hne : rest <> []) by (intros ->; simpl in HN; lia).
  destruct (separateRooms_shape d _ r0 rest (rng_ok_paintStage T d g Hg) Erooms Hne)
    as (e' & sh & _ & _ & _ & Esep).
  fold (separateStage T d g) in Esep. rewrite Esep in Hst. simpl in Hst.
  injection Hst as <-.
  eexists. split; [exact Hc |]. split; [reflexivity |].
  intros wx wy Hx Hx' Hy Hy'. simpl.
  rewrite (worldToTile_on_tile wx _ Hx Hx'), (worldToTile_on_tile wy _ Hy Hy').
  assert (Hcx : Room.x r0 <= Room.centerX r0 <= Room.x r0 + Room.width r0 - 1).
  { unfold Room.centerX.
    pose proof (Z.div_mod (Room.width r0) 2 ltac:(lia)).
    pose proof (Z.mod_pos_bound (Room.width r0) 2 ltac:(lia)). lia. }
  assert (Hcy : Room.y r0 <= Room.centerY r0 <= Room.y r0 + Room.height r0 - 1).
  { unfold Room.centerY.
    pose proof (Z.div_mod (Room.height r0) 2 ltac:(lia)).
    pose proof (Z.mod_pos_bound (Room.height r0) 2 ltac:(lia)). lia. }
  eapply getRoomAt_first; [exact Erooms | lia | lia |].
  unfold Room.covers, Room.left, Room.right, Room.top, Room.bottom. lia.
Qed.

(** ** What a door stamp writes *)

Lemma placeDoor_stamp (T : TileMapping) (room : Room.t) (ground : Layer.t)
    (dx dy : Z) :
  placeDoor T room ground (dx, dy) =
    match doorEdge (Room.width room) (Room.height room) dx dy with
    | Some e =>
        Layer.putTilesAt (doorTiles T e)
          (oneBefore e (doorCell room (dx, dy))).1
          (oneBefore e (doorCell room (dx, dy))).2 ground
    | None => ground
    end.
Proof.
  unfold doorEdge, placeDoor, doorCell. simpl.
  destruct (dy =? 0), (dy =? Room.height room - 1), (dx =? 0),
           (dx =? Room.width room - 1); reflexivity.
Qed.

(** X7. One iteration of the door loop writes the pattern of the door's
    edge entry by entry, starting one cell before the door, so that the
    door's own cell receives the second entry of the pattern (second column
    on a top or bottom door, second row on a left or right door); every
    cell outside the stamp keeps its tile; and a location on none of the
    four edges paints nothing. *)
Theorem door_stamp_cells (T : TileMapping) (room : Room.t) (ground : Layer.t)
    (dx dy : Z) :
  let painted := placeDoor T room ground (dx, dy) in
  match doorEdge (Room.width room) (Room.height room) dx dy with
  | Some e =>
      let a := oneBefore e (doorCell room (dx, dy)) in
      let pat := doorTiles T e in
      (forall (k j : nat) i,
         patternAt pat k j = Some i ->
         holds ground painted (a.1 + Z.of_nat k) (a.2 + Z.of_nat j)
               (fun i' => i' = i)) /\
      (forall i,
         patternAt pat (if bool_decide (e = EdgeTop \/ e = EdgeBottom) then 1 else 0)
                       (if bool_decide (e = EdgeTop \/ e = EdgeBottom) then 0 else 1)
         = Some i ->
         holds ground painted (Room.x room + dx) (Room.y room + dy)
               (fun i' => i' = i)) /\
      (forall cx cy,
         cx < a.1 \/ a.1 + Z.of_nat (patWidth pat) <= cx \/
         cy < a.2 \/ a.2 + Z.of_nat (patHeight pat) <= cy ->
         Layer.tileAt cx cy painted = Layer.tileAt cx cy ground)
  | None => painted = ground
  end.
Proof.
  intros painted. unfold painted. rewrite placeDoor_stamp.
  destruct (doorEdge (Room.width room) (Room.height room) dx dy) as [e |];
    [| reflexivity].
  cbv zeta.
  assert (Hcells : forall (k j : nat) i,
    patternAt (doorTiles T e) k j = Some i ->
    holds ground
      (Layer.putTilesAt (doorTiles T e) (oneBefore e (doorCell room (dx, dy))).1
         (oneBefore e (doorCell room (dx, dy))).2 ground)
      ((oneBefore e (doorCell room (dx, dy))).1 + Z.of_nat k)
      ((oneBefore e (doorCell room (dx, dy))).2 + Z.of_nat j)
      (fun i' => i' = i)).
  { intros k j i Hpat Hb. exists i. split; [| reflexivity].
    apply putTilesAt_same; assumption. }
  split; [exact Hcells |]. split.
  - intros i Hpat.
    destruct e; simpl in Hpat.
    + pose proof (Hcells 1%nat 0%nat i Hpat) as H. simpl in H |- *.
      replace (Room.x room + dx - 1 + Z.of_nat 1) with (Room.x room + dx) in H by lia.
      replace (Room.y room + dy + Z.of_nat 0) with (Room.y room + dy) in H by lia.
      exact H.
    + pose proof (Hcells 1%nat 0%nat i Hpat) as H. simpl in H |- *.
      replace (Room.x room + dx - 1 + Z.of_nat 1) with (Room.x room + dx) in H by lia.
      replace (Room.y room + dy + Z.of_nat 0) with (Room.y room + dy) in H by lia.
      exact H.
    + pose proof (Hcells 0%nat 1%nat i Hpat) as H. simpl in H |- *.
      replace (Room.y room + dy - 1 + Z.of_nat 1) with (Room.y room + dy) in H by lia.
      replace (Room.x room + dx + Z.of_nat 0) with (Room.x room + dx) in H by lia.
      exact H.
    + pose proof (Hcells 0%nat 1%nat i Hpat) as H. simpl in H |- *.
      replace (Room.y room + dy - 1 + Z.of_nat 1) with (Room.y room + dy) in H by lia.
      replace (Room.x room + dx + Z.of_nat 0) with (Room.x room + dx) in H by lia.
      exact H.
  - intros cx cy Hout. apply putTilesAt_other, Hout.
Qed.

(** ** Props keep clear of the walls *)




Lemma blankStuff_index d cx cy i :
  Layer.indexAt cx cy (blankStuff d) = Some i -> i = -1.
Proof.
  unfold Layer.indexAt, Layer.tileAt, blankStuff.
  destruct Layer.IsInLayerBounds; simpl; [| discriminate].
  rewrite lookup_empty. simpl. congruence.
Qed.


(** ** Which indexes a layer can hold *)

Lemma onlyAdds_refl P L : onlyAdds P L L.
Proof. intros cx cy j Hj. right. exact Hj. Qed.

Lemma onlyAdds_trans (P : Z -> Prop) L1 L2 L3 :
  onlyAdds P L1 L2 -> onlyAdds P L2 L3 -> onlyAdds P L1 L3.
Proof.
  intros H12 H23 cx cy j Hj. destruct (H23 cx cy j Hj) as [HP | Hj2];
    [left; exact HP | exact (H12 cx cy j Hj2)].
Qed.

Lemma onlyAdds_weaken (P Q : Z -> Prop) L L' :
  (forall j, P j -> Q j) -> onlyAdds P L L' -> onlyAdds Q L L'.
Proof.
  intros HPQ H cx cy j Hj. destruct (H cx cy j Hj) as [HP | Hold];
    [left; apply HPQ, HP | right; exact Hold].
Qed.

Lemma putTileAt_onlyAdds i tx ty L :
  onlyAdds (fun j => j = i) L (Layer.putTileAt i tx ty L).
Proof.
  intros cx cy j Hj.
  destruct (decide ((cx, cy) = (tx, ty))) as [E | E].
  - injection E as -> ->.
    destruct (Layer.IsInLayerBounds tx ty L) eqn:Hb.
    + rewrite putTileAt_same in Hj by exact Hb. left. congruence.
    + unfold Layer.putTileAt in Hj. rewrite Hb in Hj. right. exact Hj.
  - rewrite putTileAt_other_index in Hj by exact E. right. exact Hj.
Qed.

Lemma putRow_onlyAdds n row tileX y L :
  onlyAdds (fun j => j ∈ row) L (Layer.putRow n row tileX y L).
Proof.
  unfold Layer.putRow. generalize (seq 0 n). intros txs. revert L.
  induction txs as [| tx txs IH]; intros L; simpl; [apply onlyAdds_refl |].
  eapply onlyAdds_trans; [| apply IH].
  destruct (row !! tx) as [i |] eqn:Ei; [| apply onlyAdds_refl].
  eapply onlyAdds_weaken; [| apply putTileAt_onlyAdds].
  intros j ->. eapply list_elem_of_lookup_2, Ei.
Qed.

Lemma putRows_onlyAdds n rows tileX y L :
  onlyAdds (fun j => j ∈ concat rows) L (Layer.putRows n rows tileX y L).
Proof.
  revert y L. induction rows as [| row rows IH]; intros y L; simpl;
    [apply onlyAdds_refl |].
  eapply onlyAdds_trans.
  - eapply onlyAdds_weaken; [| apply putRow_onlyAdds].
    intros j Hj. apply elem_of_app. left. exact Hj.
  - eapply onlyAdds_weaken; [| apply IH].
    intros j Hj. apply elem_of_app. right. exact Hj.
Qed.

Lemma putTilesAt_onlyAdds a tileX tileY L :
  onlyAdds (fun j => j ∈ patternEntries a) L (Layer.putTilesAt a tileX tileY L).
Proof. apply putRows_onlyAdds. Qed.

Lemma stampAll_onlyAdds a anchors L :
  onlyAdds (fun j => j ∈ patternEntries a) L (stampAll a anchors L).
Proof.
  unfold stampAll. revert L.
  induction anchors as [| p ps IH]; intros L; simpl; [apply onlyAdds_refl |].
  eapply onlyAdds_trans; [apply putTilesAt_onlyAdds | apply IH].
Qed.

Lemma filledWith_onlyAdds (P : Z -> Prop) cells L L' :
  filledWith P cells L L' -> onlyAdds P L L'.
Proof.
  intros (Hf & _ & Hin & Hout) cx cy j Hj.
  unfold Layer.indexAt, Layer.tileAt in Hj |- *.
  rewrite (sameFrame_bounds _ _ _ _ Hf) in Hj.
  destruct (Layer.IsInLayerBounds cx cy L); [| discriminate].
  destruct (decide ((cx, cy) ∈ cells)) as [Hc | Hc].
  - destruct (Hin _ Hc) as (t & Ht & HP). rewrite Ht in Hj. simpl in Hj.
    left. congruence.
  - rewrite (Hout _ Hc) in Hj. right. exact Hj.
Qed.

Lemma returns_weightedRandomize_onlyAdds ws tileX tileY w h L :
  returns (Layer.weightedRandomize ws tileX tileY w h L)
          (onlyAdds (fun j => j ∈ alternatives ws) L).
Proof.
  unfold Layer.weightedRandomize.
  destruct (Qle_bool (weightTotal ws) 0) eqn:E.
  - apply returns_ret, onlyAdds_refl.
  - assert (Hok : weighted_ok ws).
    { unfold weighted_ok. destruct (Qlt_le_dec 0 (weightTotal ws)) as [H | H];
        [exact H |]. apply Qle_bool_iff in H. congruence. }
    eapply returns_weaken;
      [apply (returns_randomizeCells _ _ (fun i => i ∈ alternatives ws)),
              returns_randomIndex, Hok |].
    intros L'. apply filledWith_onlyAdds.
Qed.

Lemma returns_placeStuff_onlyAdds T stuff room :
  returns (placeStuff T stuff room) (onlyAdds (fun j => j ∈ propIndexes T) stuff).
Proof.
  unfold placeStuff. eapply returns_bind; [apply returns_random |]. intros r _.
  destruct (Qle_bool r (1 # 4)).
  { apply returns_ret. eapply onlyAdds_weaken; [| apply putTileAt_onlyAdds].
    intros j ->. apply list_elem_of_here. }
  destruct (Qle_bool r (1 # 2)).
  - apply (returns_bind _ _ (fun _ => True)); [apply returns_Between_any |].
    intros px _.
    apply (returns_bind _ _ (fun _ => True)); [apply returns_Between_any |].
    intros py _.
    eapply returns_weaken; [apply returns_weightedRandomize_onlyAdds |].
    intros L'. apply onlyAdds_weaken. intros j Hj.
    apply list_elem_of_further, elem_of_app. left. exact Hj.
  - cbv zeta. rewrite placeStuff_towers. apply returns_ret.
    eapply onlyAdds_weaken; [| apply stampAll_onlyAdds].
    intros j Hj. apply list_elem_of_further, elem_of_app. right. exact Hj.
Qed.

Lemma returns_placeAllStuff_onlyAdds T rooms stuff :
  returns (placeAllStuff T rooms stuff)
          (onlyAdds (fun j => j ∈ propIndexes T) stuff).
Proof.
  revert stuff. induction rooms as [| room rooms IH]; intros stuff; simpl.
  - apply returns_ret, onlyAdds_refl.
  - eapply returns_bind; [apply returns_placeStuff_onlyAdds |]. intros L1 H1.
    eapply returns_weaken; [apply IH |]. intros L2 H2.
    exact (onlyAdds_trans _ _ _ _ H1 H2).
Qed.

(** X10. In the level [create] builds, a tile of the stuff layer is empty
    (index -1), or holds an index a prop writes (the chest, a pot
    alternative, an entry of the tower pattern), or is the stairs tile at
    the centre of the end room.  So when the stairs index is no prop index,
    the stairs are nowhere but at the centre of the end room, and the
    callback registered on that index can fire nowhere else. *)
Theorem stuff_layer_contents (T : TileMapping) (Player : Type)
    (newPlayer : Z -> Z -> Player) (d : Dungeon.t) (s : Scene Player) (g : Rng) :
  rng_ok g ->
  (2 <= length (Dungeon.rooms d))%nat ->
  exists s' e,
    (create T Player newPlayer d s g).1 = Some s' /\
    endRoom (separateStage T d g).1 = Some e /\
    (forall cx cy j,
       Layer.indexAt cx cy (stuffLayer Player s') = Some j ->
       j = -1 \/ j ∈ propIndexes T \/
       (j = STAIRS T /\ (cx, cy) = (Room.centerX e, Room.centerY e))) /\
    (STAIRS T ∉ propIndexes T -> STAIRS T <> -1 ->
     forall cx cy,
       Layer.indexAt cx cy (stuffLayer Player s') = Some (STAIRS T) ->
       (cx, cy) = (Room.centerX e, Room.centerY e)).
Proof.
  intros Hg HN.
  destruct (create_stages T Player newPlayer d s g Hg HN) as (st & e & Hst & He & Hc).
  eexists _, e. split; [exact Hc |]. split; [exact He |].
  assert (Hall : forall cx cy j,
    Layer.indexAt cx cy
      (Layer.setTileIndexCallback (STAIRS T) ReachedStairs
         (Layer.setCollisionByExclusion walkable (stuffStage T d g e).1)) = Some j ->
    j = -1 \/ j ∈ propIndexes T \/
    (j = STAIRS T /\ (cx, cy) = (Room.centerX e, Room.centerY e))).
  { intros cx cy j Hj.
    rewrite setTileIndexCallback_indexAt, setCollisionByExclusion_index in Hj.
    destruct (proj1 (returns_placeAllStuff_onlyAdds T
                (otherRooms (separateStage T d g).1)
                (Layer.putTileAt (STAIRS T) (Room.centerX e) (Room.centerY e)
                                 (blankStuff d))
                _ (rng_ok_separateStage T d g Hg)) cx cy j Hj) as [Hp | Hold].
    { right. left. exact Hp. }
    destruct (decide ((cx, cy) = (Room.centerX e, Room.centerY e))) as [E | E].
    - destruct (putTileAt_onlyAdds _ _ _ _ _ _ _ Hold) as [-> | Hb].
      + right. right. split; [reflexivity | exact E].
      + left. eapply blankStuff_index, Hb.
    - rewrite putTileAt_other_index in Hold by exact E.
      left. eapply blankStuff_index, Hold. }
  split; [exact Hall |].
  intros Hnp Hne cx cy Hj.
  destruct (Hall cx cy _ Hj) as [H | [H | [_ H]]];
    [contradiction | contradiction | exact H].
Qed.

(** ** Rooms on the final ground layer *)

Lemma returns_placeFloorAndWalls_core T room ground :
  weighted_ok (FLOOR T) ->
  3 <= Room.width room -> 3 <= Room.height room ->
  returns (placeFloorAndWalls T room ground)
    (fun L' =>
       floorAndCorners T room ground L' /\
       forall cx cy, Room.covers room cx cy = false ->
         Layer.tileAt cx cy L' = Layer.tileAt cx cy ground).
Proof.
  intros Hfl Hw Hh. unfold placeFloorAndWalls.
  eapply returns_bind; [apply returns_weightedRandomize, Hfl |].
  intros L1 [O1 I1]. cbv zeta.
  set (L2 := Layer.putTileAt _ _ _ L1).
  set (L3 := Layer.putTileAt _ _ _ L2).
  set (L4 := Layer.putTileAt _ _ _ L3).
  set (L5 := Layer.putTileAt _ _ _ L4).
  eapply returns_bind; [apply returns_weightedRandomize_outside |].
  intros L6 O6.
  eapply returns_bind; [apply returns_weightedRandomize_outside |].
  intros L7 O7.
  eapply returns_bind; [apply returns_weightedRandomize_outside |].
  intros L8 O8.
  eapply returns_weaken; [apply returns_weightedRandomize_outside |].
  intros L9 O9.
  split; [unfold floorAndCorners, holds; repeat split |].
  - intros cx cy Hin Hgrid.
    skip_fill O9. skip_fill O8. skip_fill O7. skip_fill O6.
    unfold L5, L4, L3, L2. do 4 skip_put.
    apply I1; assumption.
  - intros Hgrid. skip_fill O9. skip_fill O8. skip_fill O7. skip_fill O6.
    unfold L5, L4, L3. do 3 skip_put.
    eexists. split; [| reflexivity]. apply putTileAt_same.
    rewrite (paintedOutside_bounds _ _ _ _ _ _ _ _ O1). exact Hgrid.
  - intros Hgrid. skip_fill O9. skip_fill O8. skip_fill O7. skip_fill O6.
    unfold L5, L4. do 2 skip_put.
    eexists. split; [| reflexivity]. apply putTileAt_same.
    unfold L2. rewrite putTileAt_bounds.
    rewrite (paintedOutside_bounds _ _ _ _ _ _ _ _ O1). exact Hgrid.
  - intros Hgrid. skip_fill O9. skip_fill O8. skip_fill O7. skip_fill O6.
    unfold L5. skip_put.
    eexists. split; [| reflexivity]. apply putTileAt_same.
    unfold L3, L2. rewrite !putTileAt_bounds.
    rewrite (paintedOutside_bounds _ _ _ _ _ _ _ _ O1). exact Hgrid.
  - intros Hgrid. skip_fill O9. skip_fill O8. skip_fill O7. skip_fill O6.
    eexists. split; [| reflexivity]. apply putTileAt_same.
    unfold L4, L3, L2. rewrite !putTileAt_bounds.
    rewrite (paintedOutside_bounds _ _ _ _ _ _ _ _ O1). exact Hgrid.
  - intros cx cy Hout. apply covers_false in Hout.
    destruct O9 as (_ & _ & E9). destruct O8 as (_ & _ & E8).
    destruct O7 as (_ & _ & E7). destruct O6 as (_ & _ & E6).
    destruct O1 as (_ & _ & E1).
    rewrite E9, E8, E7, E6
      by (unfold inRect, Room.left, Room.right, Room.top, Room.bottom; lia).
    unfold L5, L4, L3, L2.
    rewrite !putTileAt_other
      by (unfold Room.left, Room.right, Room.top, Room.bottom; intros [=]; lia).
    apply E1. unfold inRect. lia.
Qed.

Lemma placeDoor_offRun T room L door cx cy :
  doorTable_ok T -> doorPadded room door -> ~ wallRun room cx cy ->
  Layer.tileAt cx cy (placeDoor T room L door) = Layer.tileAt cx cy L.
Proof.
  intros (Htw & Hth & Hbw & Hbh & Hlw & Hlh & Hrw & Hrh) Hpad Hoff.
  destruct door as [dx dy]. rewrite placeDoor_stamp.
  unfold doorPadded in Hpad. simpl in Hpad.
  unfold doorEdge in *.
  unfold wallRun, Room.left, Room.right, Room.top, Room.bottom in Hoff.
  destruct (dy =? 0) eqn:E1;
    [apply Z.eqb_eq in E1; apply putTilesAt_other; simpl; lia |].
  destruct (dy =? Room.height room - 1) eqn:E2;
    [apply Z.eqb_eq in E2; apply putTilesAt_other; simpl; lia |].
  destruct (dx =? 0) eqn:E3;
    [apply Z.eqb_eq in E3; apply putTilesAt_other; simpl; lia |].
  destruct (dx =? Room.width room - 1) eqn:E4;
    [apply Z.eqb_eq in E4; apply putTilesAt_other; simpl; lia |].
  reflexivity.
Qed.

Lemma placeDoors_offRun T room L cx cy :
  doorTable_ok T -> doorsPadded room -> ~ wallRun room cx cy ->
  Layer.tileAt cx cy (placeDoors T room L) = Layer.tileAt cx cy L.
Proof.
  intros Htab Hpad Hoff. unfold placeDoors, doorsPadded in *.
  revert L Hpad. generalize (Room.getDoorLocations room). intros ds.
  induction ds as [| door ds IH]; intros L Hpad; simpl; [reflexivity |].
  apply Forall_cons in Hpad. destruct Hpad as [Hd Hds].
  rewrite IH by exact Hds. apply placeDoor_offRun; assumption.
Qed.

Lemma returns_paintRoom_core T room ground :
  weighted_ok (FLOOR T) -> doorTable_ok T ->
  3 <= Room.width room -> 3 <= Room.height room -> doorsPadded room ->
  returns (paintRoom T ground room)
    (fun L' =>
       floorAndCorners T room ground L' /\
       forall cx cy, Room.covers room cx cy = false ->
         Layer.tileAt cx cy L' = Layer.tileAt cx cy ground).
Proof.
  intros Hfl Htab Hw Hh Hpad. unfold paintRoom.
  eapply returns_bind;
    [apply returns_placeFloorAndWalls_core; assumption |].
  intros L1 [(Hin & Htl & Htr & Hbr & Hbl) Hout]. apply returns_ret.
  assert (Hoff : forall cx cy, ~ wallRun room cx cy ->
            Layer.indexAt cx cy (placeDoors T room L1) = Layer.indexAt cx cy L1).
  { intros cx cy Hn. unfold Layer.indexAt.
    rewrite placeDoors_offRun by assumption. reflexivity. }
  split; [unfold floorAndCorners, holds in *; repeat split |].
  - intros cx cy Hrect Hgrid. rewrite Hoff; [apply Hin; assumption |].
    unfold wallRun, inRect, Room.left, Room.right, Room.top, Room.bottom in *. lia.
  - intros Hgrid. rewrite Hoff; [apply Htl, Hgrid |].
    unfold wallRun, Room.left, Room.right, Room.top, Room.bottom. lia.
  - intros Hgrid. rewrite Hoff; [apply Htr, Hgrid |].
    unfold wallRun, Room.left, Room.right, Room.top, Room.bottom. lia.
  - intros Hgrid. rewrite Hoff; [apply Hbr, Hgrid |].
    unfold wallRun, Room.left, Room.right, Room.top, Room.bottom. lia.
  - intros Hgrid. rewrite Hoff; [apply Hbl, Hgrid |].
    unfold wallRun, Room.left, Room.right, Room.top, Room.bottom. lia.
  - intros cx cy Hcov. rewrite placeDoors_offRun; [apply Hout, Hcov | assumption
      | assumption |].
    apply covers_false in Hcov.
    unfold wallRun, Room.left, Room.right, Room.top, Room.bottom. lia.
Qed.

(** X11. One iteration of the rooms loop, on a room at least 3 by 3 whose
    doors lie two tiles or more from the corners, with door patterns at
    most three tiles long and one thick: once the doors are stamped, every
    interior cell still holds a floor alternative and the four corners
    still hold their corner tiles (the doors overwrite wall tiles only), and
    no cell outside the room has changed. *)
Theorem room_pass_floor_corners_frame (T : TileMapping) (room : Room.t)
    (ground : Layer.t) (g : Rng) :
  rng_ok g -> weighted_ok (FLOOR T) -> doorTable_ok T ->
  3 <= Room.width room -> 3 <= Room.height room -> doorsPadded room ->
  floorAndCorners T room ground (paintRoom T ground room g).1 /\
  forall cx cy, Room.covers room cx cy = false ->
    Layer.tileAt cx cy (paintRoom T ground room g).1 = Layer.tileAt cx cy ground.
Proof.
  intros Hg Hfl Htab Hw Hh Hpad.
  exact (proj1 (returns_paintRoom_core T room ground Hfl Htab Hw Hh Hpad g Hg)).
Qed.

Lemma returns_conj {A} (m : Rand A) (P R : A -> Prop) :
  returns m P -> returns m R -> returns m (fun a => P a /\ R a).
Proof.
  intros HP HR g Hg. destruct (HP g Hg) as [Hp Hg']. destruct (HR g Hg) as [Hr _].
  split; [split; assumption | exact Hg'].
Qed.

Lemma returns_paintRoom_kept T room L : returns (paintRoom T L room) (kept L).
Proof.
  unfold paintRoom.
  eapply returns_bind; [apply returns_placeFloorAndWalls_kept |].
  intros L1 K1. apply returns_ret.
  eapply kept_trans; [exact K1 | apply placeDoors_kept].
Qed.

Lemma floorAndCorners_transfer T room G G' L1 L2 :
  3 <= Room.width room -> 3 <= Room.height room ->
  (forall cx cy, Layer.IsInLayerBounds cx cy G' = Layer.IsInLayerBounds cx cy G) ->
  (forall cx cy, Room.covers room cx cy = true ->
     Layer.indexAt cx cy L2 = Layer.indexAt cx cy L1) ->
  floorAndCorners T room G L1 -> floorAndCorners T room G' L2.
Proof.
  intros Hw Hh Hb Hsame (Hin & Htl & Htr & Hbr & Hbl).
  assert (Hcov : forall cx cy,
            Room.x room <= cx < Room.x room + Room.width room ->
            Room.y room <= cy < Room.y room + Room.height room ->
            Room.covers room cx cy = true).
  { intros cx cy Hx Hy. apply covers_inRect. split; assumption. }
  unfold floorAndCorners, holds in *. repeat split.
  - intros cx cy Hrect Hgrid. rewrite Hb in Hgrid.
    rewrite Hsame; [apply Hin; assumption |].
    apply Hcov; unfold inRect in Hrect; lia.
  - intros Hgrid. rewrite Hb in Hgrid. rewrite Hsame; [apply Htl, Hgrid |].
    apply Hcov; unfold Room.left, Room.right, Room.top, Room.bottom; lia.
  - intros Hgrid. rewrite Hb in Hgrid. rewrite Hsame; [apply Htr, Hgrid |].
    apply Hcov; unfold Room.left, Room.right, Room.top, Room.bottom; lia.
  - intros Hgrid. rewrite Hb in Hgrid. rewrite Hsame; [apply Hbr, Hgrid |].
    apply Hcov; unfold Room.left, Room.right, Room.top, Room.bottom; lia.
  - intros Hgrid. rewrite Hb in Hgrid. rewrite Hsame; [apply Hbl, Hgrid |].
    apply Hcov; unfold Room.left, Room.right, Room.top, Room.bottom; lia.
Qed.

Lemma returns_paintRooms_core T rooms ground :
  weighted_ok (FLOOR T) -> doorTable_ok T ->
  pairwiseApart rooms ->
  Forall (fun room => 3 <= Room.width room /\ 3 <= Room.height room) rooms ->
  Forall doorsPadded rooms ->
  returns (paintRooms T rooms ground)
    (fun L' =>
       (forall room, room ∈ rooms -> floorAndCorners T room ground L') /\
       (forall cx cy, Forall (fun room => Room.covers room cx cy = false) rooms ->
          Layer.tileAt cx cy L' = Layer.tileAt cx cy ground)).
Proof.
  intros Hfl Htab. revert ground.
  induction rooms as [| r rs IH]; intros ground Hap Hsz Hpad; simpl.
  - apply returns_ret. split; [intros room Hin; inversion Hin | reflexivity].
  - destruct Hap as [Hr Hrs].
    apply Forall_cons in Hsz. destruct Hsz as [[Hw Hh] Hsz].
    apply Forall_cons in Hpad. destruct Hpad as [Hp Hpad].
    eapply returns_bind.
    { apply returns_conj;
        [apply returns_paintRoom_core; assumption | apply returns_paintRoom_kept]. }
    intros L1 [[Hfc Hout] [Hf1 _]].
    eapply returns_weaken; [apply (IH L1 Hrs Hsz Hpad) |].
    intros L2 [Hall2 Hout2]. split.
    + intros room Hin. apply elem_of_cons in Hin. destruct Hin as [-> | Hin].
      * apply (floorAndCorners_transfer T r ground ground L1 L2 Hw Hh);
          [reflexivity | | exact Hfc].
        intros cx cy Hcov. unfold Layer.indexAt. rewrite Hout2; [reflexivity |].
        eapply Forall_impl; [exact Hr |].
        intros o Ho. eapply roomsApart_covers; [exact Ho | lia | lia | exact Hcov].
      * pose proof (proj1 (Forall_forall _ _) Hsz room Hin) as [Hw' Hh'].
        apply (floorAndCorners_transfer T room L1 ground L2 L2 Hw' Hh');
          [| reflexivity | apply Hall2, Hin].
        intros cx cy. symmetry. apply sameFrame_bounds, Hf1.
    + intros cx cy Hnone. apply Forall_cons in Hnone. destruct Hnone as [Hc Hcs].
      rewrite Hout2 by exact Hcs. apply Hout, Hc.
Qed.

Lemma fold_fill_lookup (t : Tile.t) (cells : list (Z * Z)) (L : Layer.t)
    (c : Z * Z) :
  Layer.data (fold_left (fun L' p => Layer.setData (<[p := t]> (Layer.data L')) L')
                        cells L) !! c =
  if decide (c ∈ cells) then Some t else Layer.data L !! c.
Proof.
  revert L. induction cells as [| c0 cells IH]; intros L; cbn [fold_left].
  - rewrite decide_False by (intros H; inversion H). reflexivity.
  - rewrite IH. destruct (decide (c ∈ cells)) as [Hin | Hin].
    + rewrite decide_True by (apply list_elem_of_further; exact Hin). reflexivity.
    + simpl. destruct (decide (c = c0)) as [-> | Hne].
      * rewrite decide_True by apply list_elem_of_here.
        apply lookup_insert_eq.
      * rewrite decide_False
          by (intros H; apply elem_of_cons in H; destruct H; contradiction).
        apply lookup_insert_ne. congruence.
Qed.

Lemma fill_indexAt i L cx cy :
  Layer.IsInLayerBounds cx cy L = true ->
  Layer.indexAt cx cy (Layer.fill i L) = Some i.
Proof.
  intros Hb. unfold Layer.indexAt, Layer.tileAt.
  destruct (fill_kept i L) as [Hf _].
  rewrite (sameFrame_bounds _ _ _ _ Hf), Hb.
  unfold Layer.fill. rewrite fold_fill_lookup.
  rewrite decide_True; [reflexivity |].
  apply elem_of_GetTilesWithin. split; [| exact Hb].
  apply IsInLayerBounds_true in Hb. unfold inRect. lia.
Qed.

(** X12. The ground layer of the level [create] builds, for a generated
    dungeon (rooms pairwise apart, at least 7 by 7, doors two tiles or more
    from the corners) and door patterns at most three tiles long and one
    thick: in every room, each interior cell holds a floor alternative and
    the four corners hold their corner tiles, whatever was painted for the
    other rooms and for the doors; and every cell of the grid that no room
    covers still holds the blank index the layer was filled with. *)
Theorem ground_rooms_and_blank (T : TileMapping) (Player : Type)
    (newPlayer : Z -> Z -> Player) (d : Dungeon.t) (s : Scene Player) (g : Rng) :
  rng_ok g ->
  (2 <= length (Dungeon.rooms d))%nat ->
  weighted_ok (FLOOR T) -> doorTable_ok T ->
  pairwiseApart (Dungeon.rooms d) ->
  Forall roomSized (Dungeon.rooms d) ->
  Forall doorsPadded (Dungeon.rooms d) ->
  exists s',
    (create T Player newPlayer d s g).1 = Some s' /\
    (forall room, room ∈ Dungeon.rooms d ->
       floorAndCorners T room (blankGround T d) (groundLayer Player s')) /\
    (forall cx cy,
       Forall (fun room => Room.covers room cx cy = false) (Dungeon.rooms d) ->
       0 <= cx < Dungeon.width d -> 0 <= cy < Dungeon.height d ->
       Layer.indexAt cx cy (groundLayer Player s') = Some (BLANK T)).
Proof.
  intros Hg HN Hfl Htab Hap Hsized Hpad.
  destruct (create_stages T Player newPlayer d s g Hg HN) as (st & e & _ & _ & Hc).
  eexists. split; [exact Hc |]. simpl.
  assert (Hsz : Forall (fun room => 3 <= Room.width room /\ 3 <= Room.height room)
                       (Dungeon.rooms d)).
  { eapply Forall_impl; [exact Hsized |]. intros room [Hw Hh]. lia. }
  destruct (proj1 (returns_paintRooms_core T (Dungeon.rooms d) (blankGround T d)
                     Hfl Htab Hap Hsz Hpad g Hg)) as [Hrooms Hout].
  fold (paintStage T d g) in Hrooms, Hout.
  split.
  - intros room Hin.
    pose proof (proj1 (Forall_forall _ _) Hsz room Hin) as [Hw Hh].
    apply (floorAndCorners_transfer T room (blankGround T d) (blankGround T d)
             (paintStage T d g).1 _ Hw Hh); [reflexivity | | apply Hrooms, Hin].
    intros cx cy _. apply setCollisionByExclusion_index.
  - intros cx cy Hnone Hx Hy. rewrite setCollisionByExclusion_index.
    unfold Layer.indexAt. rewrite Hout by exact Hnone.
    apply fill_indexAt. apply IsInLayerBounds_true. simpl. lia.
Qed.

Lemma covers_center room :
  0 < Room.width room -> 0 < Room.height room ->
  Room.covers room (Room.centerX room) (Room.centerY room) = true.
Proof.
  intros Hw Hh. apply covers_inRect. unfold inRect, Room.centerX, Room.centerY.
  pose proof (Z.div_mod (Room.width room) 2 ltac:(lia)).
  pose proof (Z.mod_pos_bound (Room.width room) 2 ltac:(lia)).
  pose proof (Z.div_mod (Room.height room) 2 ltac:(lia)).
  pose proof (Z.mod_pos_bound (Room.height room) 2 ltac:(lia)). lia.
Qed.

(** X13. Where the player starts.  For a generated dungeon (rooms pairwise
    apart, at least 7 by 7, doors two tiles or more from the corners, the
    first room inside the grid), [create] leaves the whole start room free
    on the stuff layer: every cell of it is empty and does not collide, so
    neither the stairs nor a prop is ever placed there.  The tile under the
    player, the centre of the start room, is a floor alternative of the
    ground layer, and it does not collide whenever the floor alternatives
    are among the indexes -1, 6, 7, 8, 26. *)
Theorem start_room_is_free (T : TileMapping) (Player : Type)
    (newPlayer : Z -> Z -> Player) (d : Dungeon.t) (s : Scene Player)
    (g : Rng) (r0 : Room.t) :
  rng_ok g ->
  (2 <= length (Dungeon.rooms d))%nat ->
  Dungeon.rooms d !! 0%nat = Some r0 ->
  roomInGrid d r0 ->
  weighted_ok (FLOOR T) -> doorTable_ok T -> towerFits T ->
  pairwiseApart (Dungeon.rooms d) ->
  Forall roomSized (Dungeon.rooms d) ->
  Forall doorsPadded (Dungeon.rooms d) ->
  exists s',
    (create T Player newPlayer d s g).1 = Some s' /\
    player Player s'
    = newPlayer (tileToWorld (Room.centerX r0)) (tileToWorld (Room.centerY r0)) /\
    (forall cx cy, Room.covers r0 cx cy = true ->
       exists ts, Layer.tileAt cx cy (stuffLayer Player s') = Some ts /\
                  Tile.index ts = -1 /\ Tile.collides ts = false) /\
    exists tg,
      Layer.tileAt (Room.centerX r0) (Room.centerY r0) (groundLayer Player s')
      = Some tg /\
      Tile.index tg ∈ alternatives (FLOOR T) /\
      ((forall i, i ∈ alternatives (FLOOR T) -> i ∈ walkable) ->
       Tile.collides tg = false).
Proof.
  intros Hg HN Hr0 (Hx0 & Hx1 & Hy0 & Hy1) Hfl Htab Hfit Hap Hsized Hpad.
  destruct (create_stages T Player newPlayer d s g Hg HN) as (st & e & Hst & He & Hc).
  destruct (separateRooms_partition d _ (rng_ok_paintStage T d g Hg) HN)
    as (st' & e' & n & Hst' & He' & _ & Hother & Hperm).
  fold (separateStage T d g) in Hst', He', Hother, Hperm.
  assert (e' = e) by congruence. assert (st' = st) by congruence.
  subst e' st'. clear Hst' He'.
  assert (Hin0 : r0 ∈ Dungeon.rooms d) by (eapply list_elem_of_lookup_2, Hr0).
  assert (st = r0); [| subst st].
  { destruct (Dungeon.rooms d) as [| r0' rest] eqn:Erooms; [discriminate |].
    injection Hr0 as ->.
    assert (Hne : rest <> []) by (intros ->; simpl in HN; lia).
    destruct (separateRooms_shape d _ r0 rest (rng_ok_paintStage T d g Hg) Erooms Hne)
      as (e' & sh & _ & _ & _ & Esep).
    fold (separateStage T d g) in Esep. rewrite Esep in Hst. simpl in Hst.
    congruence. }
  assert (Hall : Forall roomSized (r0 :: e :: rooms (separateStage T d g).1)).
  { rewrite Hperm. exact Hsized. }
  assert (Hap' : pairwiseApart (r0 :: e :: rooms (separateStage T d g).1)).
  { eapply pairwiseApart_Permutation; [symmetry; exact Hperm | exact Hap]. }
  destruct Hap' as [Hap0 _].
  apply Forall_cons in Hap0. destruct Hap0 as [Hap_e Hap_rest].
  apply Forall_cons in Hall. destruct Hall as [[Hw0 Hh0] Hall].
  apply Forall_cons in Hall. destruct Hall as [[Hew Heh] Hall].
  assert (Hsz : Forall roomSized (otherRooms (separateStage T d g).1)).
  { rewrite Hother. apply Forall_take, Hall. }
  eexists. split; [exact Hc |]. split; [reflexivity |]. simpl. split.
  - intros cx cy Hcov.
    assert (Hb : Layer.IsInLayerBounds cx cy (blankStuff d) = true).
    { apply IsInLayerBounds_true. simpl. apply covers_inRect in Hcov.
      unfold inRect in Hcov. lia. }
    destruct (setCollisionByExclusion_cell walkable (stuffStage T d g e).1 cx cy)
      as (ts & Hts & Hidx & Hcs);
      [apply noCollision_stuffStage, Hg | rewrite bounds_stuffStage; assumption |].
    exists ts. split; [exact Hts |].
    assert (Hout : Forall (fun room => Room.covers room cx cy = false)
                          (otherRooms (separateStage T d g).1)).
    { rewrite Hother. apply Forall_take. eapply Forall_impl; [exact Hap_rest |].
      intros o Ho. eapply roomsApart_covers; [exact Ho | lia | lia | exact Hcov]. }
    pose proof (proj1 (returns_placeAllStuff_inside T _
                  (Layer.putTileAt (STAIRS T) (Room.centerX e) (Room.centerY e)
                                   (blankStuff d))
                  Hfit Hsz _ (rng_ok_separateStage T d g Hg)) cx cy Hout) as Hsame.
    fold (stuffStage T d g e) in Hsame.
    assert (Hne : (cx, cy) <> (Room.centerX e, Room.centerY e)).
    { intros [= -> ->].
      pose proof (roomsApart_covers r0 e _ _ Hap_e ltac:(lia) ltac:(lia) Hcov) as Hf.
      rewrite covers_center in Hf by lia. discriminate. }
    unfold Layer.indexAt in Hidx. rewrite Hsame in Hidx.
    rewrite putTileAt_other in Hidx by exact Hne.
    fold (Layer.indexAt cx cy (blankStuff d)) in Hidx.
    apply blankStuff_index in Hidx.
    split; [exact Hidx |]. rewrite Hcs, Hidx. reflexivity.
  - pose proof (covers_center r0 ltac:(lia) ltac:(lia)) as Hcov.
    assert (Hb : Layer.IsInLayerBounds (Room.centerX r0) (Room.centerY r0)
                                       (blankStuff d) = true).
    { apply IsInLayerBounds_true. simpl. apply covers_inRect in Hcov.
      unfold inRect in Hcov. lia. }
    destruct (setCollisionByExclusion_cell walkable (paintStage T d g).1
                (Room.centerX r0) (Room.centerY r0))
      as (tg & Htg & Hidx & Hcg);
      [apply noCollision_paintStage, Hg | rewrite bounds_paintStage; assumption |].
    exists tg. split; [exact Htg |].
    assert (Hsz3 : Forall (fun room => 3 <= Room.width room /\ 3 <= Room.height room)
                          (Dungeon.rooms d)).
    { eapply Forall_impl; [exact Hsized |]. intros room [Hw Hh]. lia. }
    destruct (proj1 (returns_paintRooms_core T (Dungeon.rooms d) (blankGround T d)
                       Hfl Htab Hap Hsz3 Hpad g Hg)) as [Hrooms _].
    fold (paintStage T d g) in Hrooms.
    destruct (Hrooms r0 Hin0) as [Hinner _].
    destruct (Hinner (Room.centerX r0) (Room.centerY r0)) as (i & Hi & Halt).
    { unfold inRect, Room.centerX, Room.centerY.
      pose proof (Z.div_mod (Room.width r0) 2 ltac:(lia)).
      pose proof (Z.mod_pos_bound (Room.width r0) 2 ltac:(lia)).
      pose proof (Z.div_mod (Room.height r0) 2 ltac:(lia)).
      pose proof (Z.mod_pos_bound (Room.height r0) 2 ltac:(lia)). lia. }
    { rewrite <- Hb. apply sameFrame_bounds, (fill_kept (BLANK T)). }
    assert (Ei : Tile.index tg = i) by congruence.
    split; [rewrite Ei; exact Halt |].
    intros Hwalk. rewrite Hcg. unfold Layer.hasIndex.
    rewrite bool_decide_eq_true_2; [reflexivity |]. apply Hwalk.
    rewrite Ei. exact Halt.
Qed.

(** ** Which indexes the ground layer can hold *)

Ltac in_roomIndexes :=
  unfold roomIndexes;
  repeat (rewrite elem_of_app || rewrite elem_of_cons); tauto.

Lemma onlyAdds_room_index T (P : Z -> Prop) L L' :
  (forall j, P j -> j ∈ roomIndexes T) -> onlyAdds P L L' ->
  onlyAdds (fun j => j ∈ roomIndexes T) L L'.
Proof. apply onlyAdds_weaken. Qed.

Lemma returns_placeFloorAndWalls_onlyAdds T room L :
  returns (placeFloorAndWalls T room L) (onlyAdds (fun j => j ∈ roomIndexes T) L).
Proof.
  unfold placeFloorAndWalls.
  eapply returns_bind; [apply returns_weightedRandomize_onlyAdds |].
  intros L1 H1. cbv zeta.
  set (L2 := Layer.putTileAt _ _ _ L1).
  set (L3 := Layer.putTileAt _ _ _ L2).
  set (L4 := Layer.putTileAt _ _ _ L3).
  set (L5 := Layer.putTileAt _ _ _ L4).
  apply (onlyAdds_room_index T) in H1;
    [| intros j Hj; in_roomIndexes].
  pose proof (putTileAt_onlyAdds (Wall.TOP_LEFT (WALL T)) (Room.left room)
                (Room.top room) L1) as H2. fold L2 in H2.
  apply (onlyAdds_room_index T) in H2;
    [| intros j Hj; in_roomIndexes].
  pose proof (putTileAt_onlyAdds (Wall.TOP_RIGHT (WALL T)) (Room.right room)
                (Room.top room) L2) as H3. fold L3 in H3.
  apply (onlyAdds_room_index T) in H3;
    [| intros j Hj; in_roomIndexes].
  pose proof (putTileAt_onlyAdds (Wall.BOTTOM_RIGHT (WALL T)) (Room.right room)
                (Room.bottom room) L3) as H4. fold L4 in H4.
  apply (onlyAdds_room_index T) in H4;
    [| intros j Hj; in_roomIndexes].
  pose proof (putTileAt_onlyAdds (Wall.BOTTOM_LEFT (WALL T)) (Room.left room)
                (Room.bottom room) L4) as H5. fold L5 in H5.
  apply (onlyAdds_room_index T) in H5;
    [| intros j Hj; in_roomIndexes].
  eapply returns_bind; [apply returns_weightedRandomize_onlyAdds |].
  intros L6 H6.
  apply (onlyAdds_room_index T) in H6;
    [| intros j Hj; in_roomIndexes].
  eapply returns_bind; [apply returns_weightedRandomize_onlyAdds |].
  intros L7 H7.
  apply (onlyAdds_room_index T) in H7;
    [| intros j Hj; in_roomIndexes].
  eapply returns_bind; [apply returns_weightedRandomize_onlyAdds |].
  intros L8 H8.
  apply (onlyAdds_room_index T) in H8;
    [| intros j Hj; in_roomIndexes].
  eapply returns_weaken; [apply returns_weightedRandomize_onlyAdds |].
  intros L9 H9.
  apply (onlyAdds_room_index T) in H9;
    [| intros j Hj; in_roomIndexes].
  repeat (eapply onlyAdds_trans; [eassumption |]). apply onlyAdds_refl.
Qed.

Lemma placeDoor_onlyAdds T room L door :
  onlyAdds (fun j => j ∈ roomIndexes T) L (placeDoor T room L door).
Proof.
  destruct door as [dx dy]. rewrite placeDoor_stamp.
  destruct (doorEdge _ _ dx dy) as [e |]; [| apply onlyAdds_refl].
  eapply onlyAdds_weaken; [| apply putTilesAt_onlyAdds].
  intros j Hj. destruct e; simpl in Hj; in_roomIndexes.
Qed.

Lemma placeDoors_onlyAdds T room L :
  onlyAdds (fun j => j ∈ roomIndexes T) L (placeDoors T room L).
Proof.
  unfold placeDoors. generalize (Room.getDoorLocations room). intros ds.
  revert L. induction ds as [| door ds IH]; intros L; simpl;
    [apply onlyAdds_refl |].
  eapply onlyAdds_trans; [apply placeDoor_onlyAdds | apply IH].
Qed.

Lemma returns_paintRooms_onlyAdds T rooms L :
  returns (paintRooms T rooms L) (onlyAdds (fun j => j ∈ roomIndexes T) L).
Proof.
  revert L. induction rooms as [| room rooms IH]; intros L; simpl.
  - apply returns_ret, onlyAdds_refl.
  - unfold paintRoom. eapply returns_bind.
    + eapply returns_bind; [apply returns_placeFloorAndWalls_onlyAdds |].
      intros L1 H1. apply returns_ret.
      exact (onlyAdds_trans _ _ _ _ H1 (placeDoors_onlyAdds T room L1)).
    + intros L1 H1. eapply returns_weaken; [apply IH |]. intros L2 H2.
      exact (onlyAdds_trans _ _ _ _ H1 H2).
Qed.

(** X14. Whatever the dungeon and the draws, a tile of the ground layer of
    the level [create] builds holds the blank index the layer was filled
    with or an index the rooms loop writes: a floor alternative, one of the
    four corner tiles, a wall alternative or an entry of a door pattern.
    With fewer than two rooms there is no level at all. *)
Theorem ground_layer_contents (T : TileMapping) (Player : Type)
    (newPlayer : Z -> Z -> Player) (d : Dungeon.t) (s : Scene Player) (g : Rng) :
  rng_ok g ->
  match (create T Player newPlayer d s g).1 with
  | Some s' =>
      forall cx cy j,
        Layer.indexAt cx cy (groundLayer Player s') = Some j ->
        j = BLANK T \/ j ∈ roomIndexes T
  | None => (length (Dungeon.rooms d) < 2)%nat
  end.
Proof.
  intros Hg.
  destruct (le_lt_dec 2 (length (Dungeon.rooms d))) as [HN | HN].
  - destruct (create_stages T Player newPlayer d s g Hg HN) as (st & e & _ & _ & Hc).
    rewrite Hc. simpl. intros cx cy j Hj.
    rewrite setCollisionByExclusion_index in Hj.
    destruct (proj1 (returns_paintRooms_onlyAdds T (Dungeon.rooms d)
                       (blankGround T d) g Hg) cx cy j Hj) as [Hr | Hold].
    { right. exact Hr. }
    left. unfold blankGround in Hold.
    destruct (Layer.IsInLayerBounds cx cy
                (Layer.createBlankLayer (Dungeon.width d) (Dungeon.height d))) eqn:Hb.
    + rewrite fill_indexAt in Hold by exact Hb. congruence.
    + unfold Layer.indexAt, Layer.tileAt in Hold.
      destruct (fill_kept (BLANK T)
                  (Layer.createBlankLayer (Dungeon.width d) (Dungeon.height d)))
        as [Hf _].
      rewrite (sameFrame_bounds _ _ _ _ Hf), Hb in Hold. discriminate.
  - pose proof (proj1 (returns_create T Player newPlayer d s g Hg)) as Hcr.
    destruct ((create T Player newPlayer d s g).1) as [s' |] eqn:E.
    + destruct Hcr as [H2 _]. lia.
    + exact Hcr.
Qed.

(** ** The properties above on the sample level *)


Lemma demoTiles_doors : doorTable_ok demoTiles.
Proof. unfold doorTable_ok, patWidth, patHeight. simpl. lia. Qed.

Lemma demoTiles_floor : weighted_ok (FLOOR demoTiles).
Proof. reflexivity. Qed.

Lemma demoRooms_padded : Forall doorsPadded demoRooms.
Proof.
  unfold demoRooms, doorsPadded, doorPadded.
  repeat (apply Forall_cons; split;
          [repeat (apply Forall_cons; split; [simpl; lia |]); constructor |]).
  constructor.
Qed.

Lemma demoRoom_in_grid : roomInGrid demoDungeon roomA.
Proof. unfold roomInGrid. simpl. lia. Qed.

Lemma create_needs_two_rooms_witness :
  rng_ok demoRng /\
  ((create demoTiles unit (fun _ _ => tt) demoDungeon demoScene demoRng).1 = None
   <-> (length (Dungeon.rooms demoDungeon) < 2)%nat) /\
  (is_Some (create demoTiles unit (fun _ _ => tt) demoDungeon demoScene demoRng).1
   <-> (2 <= length (Dungeon.rooms demoDungeon))%nat).
Proof.
  split; [exact demoRng_ok |].
  apply (create_needs_two_rooms demoTiles unit (fun _ _ => tt) demoDungeon
           demoScene demoRng).
  exact demoRng_ok.
Defined.

Lemma levels_count_restarts_witness :
  rng_ok demoRng /\
  Forall (fun d' => 2 <= length (Dungeon.rooms d'))%nat
         ([demoDungeon] ++ [demoDungeon]) /\
  exists s',
    (restarts demoTiles unit (fun _ _ => tt) ([demoDungeon] ++ [demoDungeon])
              demoScene demoRng).1 = Some s' /\
    level unit s' = level unit demoScene + Z.of_nat (length [demoDungeon]) + 1 /\
    hasPlayerReachedStairs unit s' = false /\
    dungeon unit s' = demoDungeon /\
    Layer.callbacks (stuffLayer unit s') !! STAIRS demoTiles = Some ReachedStairs.
Proof.
  assert (H2 : Forall (fun d' => 2 <= length (Dungeon.rooms d'))%nat
                      ([demoDungeon] ++ [demoDungeon])).
  { repeat (apply Forall_cons; split; [simpl; lia |]). constructor. }
  split; [exact demoRng_ok |]. split; [exact H2 |].
  apply (levels_count_restarts demoTiles unit (fun _ _ => tt) [demoDungeon]
           demoDungeon demoScene demoRng demoRng_ok H2).
Defined.

Lemma scene_frozen_after_goal_witness :
  rng_ok demoRng /\ (2 <= length (Dungeon.rooms demoDungeon))%nat /\
  exists s',
    (create demoTiles unit (fun _ _ => tt) demoDungeon demoScene demoRng).1
      = Some s' /\
    (hasPlayerReachedStairs unit
       (run demoTiles unit unit (fun _ p => p) (fun p => p)
            (fun _ => 100%Q) (fun _ => 100%Q) [Overlap 81] s') = true ->
     run demoTiles unit unit (fun _ p => p) (fun p => p)
         (fun _ => 100%Q) (fun _ => 100%Q) [Frame tt 0%Q 16%Q; Overlap 81]
         (run demoTiles unit unit (fun _ p => p) (fun p => p)
              (fun _ => 100%Q) (fun _ => 100%Q) [Overlap 81] s')
     = run demoTiles unit unit (fun _ p => p) (fun p => p)
           (fun _ => 100%Q) (fun _ => 100%Q) [Overlap 81] s') /\
    run demoTiles unit unit (fun _ p => p) (fun p => p)
        (fun _ => 100%Q) (fun _ => 100%Q) [Frame tt 0%Q 16%Q; Overlap 81]
        (overlapTile demoTiles unit (fun p => p) (STAIRS demoTiles) s')
    = overlapTile demoTiles unit (fun p => p) (STAIRS demoTiles) s'.
Proof.
  split; [exact demoRng_ok |]. split; [simpl; lia |].
  apply (scene_frozen_after_goal demoTiles unit unit (fun _ _ => tt)
           (fun _ p => p) (fun p => p) (fun _ => 100%Q) (fun _ => 100%Q)
           demoDungeon demoScene demoRng [Overlap 81]
           [Frame tt 0%Q 16%Q; Overlap 81]);
    [exact demoRng_ok | simpl; lia].
Defined.

Lemma some_room_stays_empty_witness :
  rng_ok demoRng /\
  ((3 <= length (Dungeon.rooms demoDungeon))%nat ->
   length (rooms (separateRooms demoDungeon demoRng).1)
   = (length (Dungeon.rooms demoDungeon) - 2)%nat /\
   (length (otherRooms (separateRooms demoDungeon demoRng).1)
    < length (rooms (separateRooms demoDungeon demoRng).1))%nat) /\
  ((length (Dungeon.rooms demoDungeon) <= 3)%nat ->
   otherRooms (separateRooms demoDungeon demoRng).1 = []).
Proof.
  split; [exact demoRng_ok |].
  apply (some_room_stays_empty demoDungeon demoRng demoRng_ok).
Defined.

Lemma player_starts_in_start_room_witness :
  rng_ok demoRng /\ (2 <= length (Dungeon.rooms demoDungeon))%nat /\
  Dungeon.rooms demoDungeon !! 0%nat = Some roomA /\
  0 < Room.width roomA /\ 0 < Room.height roomA /\ roomInGrid demoDungeon roomA /\
  exists s',
    (create demoTiles unit (fun _ _ => tt) demoDungeon demoScene demoRng).1
      = Some s' /\
    player unit s' = tt /\
    forall wx wy : Q,
      (inject_Z (tileToWorld (Room.centerX roomA)) <= wx)%Q ->
      (wx < inject_Z (tileToWorld (Room.centerX roomA) + 48))%Q ->
      (inject_Z (tileToWorld (Room.centerY roomA)) <= wy)%Q ->
      (wy < inject_Z (tileToWorld (Room.centerY roomA) + 48))%Q ->
      Dungeon.getRoomAt (worldToTile wx) (worldToTile wy) (dungeon unit s')
      = Some roomA.
Proof.
  split; [exact demoRng_ok |]. split; [simpl; lia |].
  split; [reflexivity |]. split; [simpl; lia |]. split; [simpl; lia |].
  split; [exact demoRoom_in_grid |].
  apply (player_starts_in_start_room demoTiles unit (fun _ _ => tt) demoDungeon
           demoScene demoRng roomA);
    [exact demoRng_ok | simpl; lia | reflexivity | simpl; lia | simpl; lia
     | exact demoRoom_in_grid].
Defined.

Lemma door_stamp_cells_witness :
  doorEdge (Room.width demoRoom) (Room.height demoRoom) 0 3 = Some EdgeLeft /\
  holds (blankStuff demoDungeon)
        (placeDoor demoTiles demoRoom (blankStuff demoDungeon) (0, 3)) 8 4
        (fun i' => i' = 6) /\
  Layer.tileAt 9 4 (placeDoor demoTiles demoRoom (blankStuff demoDungeon) (0, 3))
  = Layer.tileAt 9 4 (blankStuff demoDungeon).
Proof.
  split; [reflexivity |].
  pose proof (door_stamp_cells demoTiles demoRoom (blankStuff demoDungeon) 0 3)
    as H.
  cbv zeta in H.
  change (doorEdge (Room.width demoRoom) (Room.height demoRoom) 0 3)
    with (Some EdgeLeft) in H.
  cbv beta iota in H. destruct H as (_ & Hdoor & Hout).
  split; [apply (Hdoor 6); reflexivity |].
  apply Hout. right. left. vm_compute. discriminate.
Defined.



Lemma stuff_layer_contents_witness :
  rng_ok demoRng /\ (2 <= length (Dungeon.rooms demoDungeon))%nat /\
  (STAIRS demoTiles ∉ propIndexes demoTiles) /\ STAIRS demoTiles <> -1 /\
  exists s' e,
    (create demoTiles unit (fun _ _ => tt) demoDungeon demoScene demoRng).1
      = Some s' /\
    endRoom (separateStage demoTiles demoDungeon demoRng).1 = Some e /\
    (forall cx cy j,
       Layer.indexAt cx cy (stuffLayer unit s') = Some j ->
       j = -1 \/ j ∈ propIndexes demoTiles \/
       (j = STAIRS demoTiles /\ (cx, cy) = (Room.centerX e, Room.centerY e))) /\
    forall cx cy,
      Layer.indexAt cx cy (stuffLayer unit s') = Some (STAIRS demoTiles) ->
      (cx, cy) = (Room.centerX e, Room.centerY e).
Proof.
  assert (Hnp : STAIRS demoTiles ∉ propIndexes demoTiles).
  { apply (bool_decide_unpack _). vm_compute. exact I. }
  assert (Hne : STAIRS demoTiles <> -1) by (simpl; lia).
  split; [exact demoRng_ok |]. split; [simpl; lia |].
  split; [exact Hnp |]. split; [exact Hne |].
  destruct (stuff_layer_contents demoTiles unit (fun _ _ => tt) demoDungeon
              demoScene demoRng demoRng_ok ltac:(simpl; lia))
    as (s' & e & Hc & He & Hall & Hone).
  exists s', e. split; [exact Hc |]. split; [exact He |].
  split; [exact Hall | exact (Hone Hnp Hne)].
Defined.

Lemma room_pass_floor_corners_frame_witness :
  rng_ok demoRng /\ weighted_ok (FLOOR demoTiles) /\ doorTable_ok demoTiles /\
  3 <= Room.width demoRoom /\ 3 <= Room.height demoRoom /\ doorsPadded demoRoom /\
  floorAndCorners demoTiles demoRoom (blankGround demoTiles demoDungeon)
    (paintRoom demoTiles (blankGround demoTiles demoDungeon) demoRoom demoRng).1 /\
  forall cx cy, Room.covers demoRoom cx cy = false ->
    Layer.tileAt cx cy
      (paintRoom demoTiles (blankGround demoTiles demoDungeon) demoRoom demoRng).1
    = Layer.tileAt cx cy (blankGround demoTiles demoDungeon).
Proof.
  assert (Hp : doorsPadded demoRoom).
  { unfold doorsPadded, doorPadded, demoRoom.
    repeat (apply Forall_cons; split; [simpl; lia |]). constructor. }
  split; [exact demoRng_ok |]. split; [exact demoTiles_floor |].
  split; [exact demoTiles_doors |]. split; [simpl; lia |]. split; [simpl; lia |].
  split; [exact Hp |].
  apply (room_pass_floor_corners_frame demoTiles demoRoom
           (blankGround demoTiles demoDungeon) demoRng);
    [exact demoRng_ok | exact demoTiles_floor | exact demoTiles_doors
     | simpl; lia | simpl; lia | exact Hp].
Defined.

Lemma ground_rooms_and_blank_witness :
  rng_ok demoRng /\ (2 <= length (Dungeon.rooms demoDungeon))%nat /\
  weighted_ok (FLOOR demoTiles) /\ doorTable_ok demoTiles /\
  pairwiseApart (Dungeon.rooms demoDungeon) /\
  Forall roomSized (Dungeon.rooms demoDungeon) /\
  Forall doorsPadded (Dungeon.rooms demoDungeon) /\
  exists s',
    (create demoTiles unit (fun _ _ => tt) demoDungeon demoScene demoRng).1
      = Some s' /\
    (forall room, room ∈ Dungeon.rooms demoDungeon ->
       floorAndCorners demoTiles room (blankGround demoTiles demoDungeon)
                       (groundLayer unit s')) /\
    (forall cx cy,
       Forall (fun room => Room.covers room cx cy = false)
              (Dungeon.rooms demoDungeon) ->
       0 <= cx < Dungeon.width demoDungeon ->
       0 <= cy < Dungeon.height demoDungeon ->
       Layer.indexAt cx cy (groundLayer unit s') = Some (BLANK demoTiles)).
Proof.
  split; [exact demoRng_ok |]. split; [simpl; lia |].
  split; [exact demoTiles_floor |]. split; [exact demoTiles_doors |].
  split; [exact demoRooms_apart |]. split; [exact demoRooms_sized |].
  split; [exact demoRooms_padded |].
  apply (ground_rooms_and_blank demoTiles unit (fun _ _ => tt) demoDungeon
           demoScene demoRng);
    [exact demoRng_ok | simpl; lia | exact demoTiles_floor | exact demoTiles_doors
     | exact demoRooms_apart | exact demoRooms_sized | exact demoRooms_padded].
Defined.

Lemma start_room_is_free_witness :
  rng_ok demoRng /\ (2 <= length (Dungeon.rooms demoDungeon))%nat /\
  Dungeon.rooms demoDungeon !! 0%nat = Some roomA /\
  roomInGrid demoDungeon roomA /\
  weighted_ok (FLOOR demoTiles) /\ doorTable_ok demoTiles /\ towerFits demoTiles /\
  pairwiseApart (Dungeon.rooms demoDungeon) /\
  Forall roomSized (Dungeon.rooms demoDungeon) /\
  Forall doorsPadded (Dungeon.rooms demoDungeon) /\
  (forall i, i ∈ alternatives (FLOOR demoTiles) -> i ∈ walkable) /\
  exists s',
    (create demoTiles unit (fun _ _ => tt) demoDungeon demoScene demoRng).1
      = Some s' /\
    (forall cx cy, Room.covers roomA cx cy = true ->
       exists ts, Layer.tileAt cx cy (stuffLayer unit s') = Some ts /\
                  Tile.index ts = -1 /\ Tile.collides ts = false) /\
    exists tg,
      Layer.tileAt (Room.centerX roomA) (Room.centerY roomA) (groundLayer unit s')
      = Some tg /\
      Tile.index tg ∈ alternatives (FLOOR demoTiles) /\
      Tile.collides tg = false.
Proof.
  assert (Hwalk : forall i, i ∈ alternatives (FLOOR demoTiles) -> i ∈ walkable).
  { intros i Hi. apply (bool_decide_unpack _).
    vm_compute in Hi.
    repeat (apply elem_of_cons in Hi; destruct Hi as [-> | Hi];
            [vm_compute; exact I |]).
    inversion Hi. }
  split; [exact demoRng_ok |]. split; [simpl; lia |].
  split; [reflexivity |]. split; [exact demoRoom_in_grid |].
  split; [exact demoTiles_floor |]. split; [exact demoTiles_doors |].
  split; [exact demoTiles_tower |].
  split; [exact demoRooms_apart |]. split; [exact demoRooms_sized |].
  split; [exact demoRooms_padded |]. split; [exact Hwalk |].
  destruct (start_room_is_free demoTiles unit (fun _ _ => tt) demoDungeon
              demoScene demoRng roomA demoRng_ok ltac:(simpl; lia) eq_refl
              demoRoom_in_grid demoTiles_floor demoTiles_doors demoTiles_tower
              demoRooms_apart demoRooms_sized demoRooms_padded)
    as (s' & Hc & _ & Hstuff & tg & Htg & Halt & Hcol).
  exists s'. split; [exact Hc |]. split; [exact Hstuff |].
  exists tg. split; [exact Htg |]. split; [exact Halt | exact (Hcol Hwalk)].
Defined.

Lemma ground_layer_contents_witness :
  rng_ok demoRng /\
  match (create demoTiles unit (fun _ _ => tt) demoDungeon demoScene demoRng).1 with
  | Some s' =>
      forall cx cy j,
        Layer.indexAt cx cy (groundLayer unit s') = Some j ->
        j = BLANK demoTiles \/ j ∈ roomIndexes demoTiles
  | None => (length (Dungeon.rooms demoDungeon) < 2)%nat
  end.
Proof.
  split; [exact demoRng_ok |].
  apply (ground_layer_contents demoTiles unit (fun _ _ => tt) demoDungeon
           demoScene demoRng demoRng_ok).
Defined.
